(** * remix-zod: request-data validation adapter (src/index.ts)

    A shallow embedding of [src/index.ts].  The adapter is glue between a
    schema engine (zod) and a request framework (Remix); both are external.
    What is embedded here is the adapter's own control flow, together with
    the small part of the host language that this control flow observes:

    - JavaScript values, including thrown values and settled promises;
    - property reads and writes on a plain object literal [{}], with the
      properties it inherits from [Object.prototype];
    - [String.prototype.includes], [split], and the platform's [atob];
    - a schema as a function from a value to one of three runs: the schema
      accepts, the schema reports issues, or a user callback inside the
      schema throws.

    Every [async] function of the source awaits its promises one after the
    other, so a promise is represented by the completion it settles to.
    Strings are sequences of 8-bit characters, which is all the adapter's
    own string handling (media types, base64 text) needs; numbers are exact
    rationals, on which the adapter only multiplies by 1024 and compares. *)

From Stdlib Require Import QArith Ascii String.
From stdpp Require Import gmap strings list fin_maps pretty.

Set Warnings "-register-all".
Local Open Scope string_scope.

(* ===================================================================== *)
(** * 1. Host language                                                    *)
(* ===================================================================== *)

(** A completion record: a call returns normally or throws; a promise is
    fulfilled or rejected. *)
Inductive completion (A E : Type) : Type :=
| Normal (a : A)
| Abrupt (e : E).
Arguments Normal {A E} a.
Arguments Abrupt {A E} e.

(** [File] objects, as far as the adapter looks at them: [val.type] and
    [val.size] (and the name it gives to a file rebuilt from base64). *)
Record File := mkFile {
  file_name : string;
  file_type : string;
  file_size : Z
}.

(** JavaScript values.  A plain object carries its own properties and its
    prototype: [None] is [Object.prototype], [Some elems] is an Array
    instance with elements [elems] (the only other prototype an object of
    this program can get, see [SetProp]). *)
Inductive JsValue : Type :=
| VUndefined
| VNull
| VBool (b : bool)
| VNum (q : Q)
| VStr (s : string)
| VFile (f : File)
| VArr (elems : list JsValue)
| VObj (own : gmap string JsValue) (proto : option (list JsValue))
| VSearchParams (pairs : list (string * string))
| VNative (name : string)
| VError (name message : string)
| VResponse (body : JsValue) (status : Z) (statusText : string)
| VPromise (settled : completion JsValue JsValue).

(** Synchronous calls and awaited promises share the completion type; the
    thrown value, or rejection reason, is any JavaScript value. *)
Abbreviation Completion A := (completion A JsValue).
Abbreviation Promise A := (completion A JsValue).
Abbreviation Return := (@Normal _ JsValue).
Abbreviation Throw := (@Abrupt _ JsValue).
Abbreviation Resolved := (@Normal _ JsValue).
Abbreviation Rejected := (@Abrupt _ JsValue).

Definition bind {A B : Type} (c : completion A JsValue)
    (k : A -> completion B JsValue) : completion B JsValue :=
  match c with
  | Normal a => k a
  | Abrupt e => Abrupt e
  end.

Notation "'let!' x ':=' c 'in' k" := (bind c (fun x => k))
  (at level 10, x name, c at level 100, k at level 200).

(** ** Strings *)

(** [s.includes(searchString)]: substring containment. *)
Fixpoint includes (s searchString : string) : bool :=
  if String.prefix searchString s then true
  else match s with
       | EmptyString => false
       | String _ rest => includes rest searchString
       end.

(** [s.split(sep)] for a one-character separator. *)
Fixpoint split (sep : ascii) (s : string) : list string :=
  match s with
  | EmptyString => [EmptyString]
  | String c rest =>
      if Ascii.eqb c sep then EmptyString :: split sep rest
      else match split sep rest with
           | [] => [String c EmptyString]
           | piece :: pieces => String c piece :: pieces
           end
  end.

(** [ToString] of a string-or-undefined value, as applied by [atob] and by
    template literals to their argument. *)
Definition ToString (x : option string) : string :=
  match x with
  | Some s => s
  | None => "undefined"
  end.

(** JavaScript truthiness of a string-or-null value: [!s] is [true] for
    [null] and for the empty string. *)
Definition truthy (x : option string) : bool :=
  match x with
  | Some (String _ _) => true
  | _ => false
  end.

(** ** [atob]: the platform's forgiving-base64 decoder *)

Definition is_ascii_whitespace (c : ascii) : bool :=
  let n := nat_of_ascii c in
  (n =? 9)%nat || (n =? 10)%nat || (n =? 12)%nat || (n =? 13)%nat || (n =? 32)%nat.

Fixpoint remove_whitespace (s : string) : string :=
  match s with
  | EmptyString => EmptyString
  | String c rest =>
      if is_ascii_whitespace c then remove_whitespace rest
      else String c (remove_whitespace rest)
  end.

(** The six-bit value of a character of the base64 alphabet. *)
Definition sextet (c : ascii) : option N :=
  let n := N_of_ascii c in
  if (65 <=? n)%N && (n <=? 90)%N then Some (n - 65)%N
  else if (97 <=? n)%N && (n <=? 122)%N then Some (n - 71)%N
  else if (48 <=? n)%N && (n <=? 57)%N then Some (n + 4)%N
  else if (n =? 43)%N then Some 62%N
  else if (n =? 47)%N then Some 63%N
  else None.

Fixpoint sextets (s : string) : option (list N) :=
  match s with
  | EmptyString => Some []
  | String c rest =>
      match sextet c, sextets rest with
      | Some v, Some vs => Some (v :: vs)
      | _, _ => None
      end
  end.

Definition octet (n : N) : ascii := ascii_of_N (n mod 256).

Fixpoint octets (l : list N) : string :=
  match l with
  | a :: b :: c :: d :: rest =>
      let w := (a * 262144 + b * 4096 + c * 64 + d)%N in
      String (octet (w / 65536)) (String (octet (w / 256)) (String (octet w) (octets rest)))
  | [a; b; c] =>
      let w := (a * 4096 + b * 64 + c)%N in
      String (octet (w / 1024)) (String (octet (w / 4)) EmptyString)
  | [a; b] =>
      let w := (a * 64 + b)%N in
      String (octet (w / 16)) EmptyString
  | _ => EmptyString
  end.

(** Strip the padding of a string whose length is a multiple of four. *)
Definition strip_padding (s : string) : string :=
  let n := String.length s in
  if (n mod 4 =? 0)%nat then
    if (2 <=? n)%nat && String.eqb (substring (n - 2) 2 s) "==" then substring 0 (n - 2) s
    else if (1 <=? n)%nat && String.eqb (substring (n - 1) 1 s) "=" then substring 0 (n - 1) s
    else s
  else s.

Definition InvalidCharacterError : JsValue :=
  VError "InvalidCharacterError" "The string to be decoded is not correctly encoded.".

Definition atob (data : string) : Completion string :=
  let s := strip_padding (remove_whitespace data) in
  if (String.length s mod 4 =? 1)%nat then Throw InvalidCharacterError
  else match sextets s with
       | None => Throw InvalidCharacterError
       | Some vs => Return (octets vs)
       end.

(** ** Blob type normalisation: [new Blob(parts, {type})] keeps the type
    in ASCII lower case, or drops it when it has a character outside
    U+0020..U+007E. *)

Definition ascii_lower (c : ascii) : ascii :=
  let n := nat_of_ascii c in
  if (65 <=? n)%nat && (n <=? 90)%nat then ascii_of_nat (n + 32) else c.

Fixpoint string_lower (s : string) : string :=
  match s with
  | EmptyString => EmptyString
  | String c rest => String (ascii_lower c) (string_lower rest)
  end.

Fixpoint printable (s : string) : bool :=
  match s with
  | EmptyString => true
  | String c rest =>
      (32 <=? nat_of_ascii c)%nat && (nat_of_ascii c <=? 126)%nat && printable rest
  end.

Definition Blob_type (type : string) : string :=
  if printable type then string_lower type else "".

(** ** Plain objects used as maps

    [const data: Record<string, any> = {}] is an ordinary object: a read
    [data[key]] that finds no own property continues along the prototype
    chain.  The object starts with prototype [Object.prototype]; an
    assignment to the key ["__proto__"] runs the inherited setter, which
    replaces the prototype when it is given an object. *)

Record Obj := mkObj {
  own : gmap string JsValue;
  proto : option (list JsValue)
}.

Definition empty_object : Obj := mkObj ∅ None.

(** The string-keyed data properties of [Object.prototype] (all of them
    functions); ["__proto__"] is its one accessor property. *)
Definition Object_prototype_keys : list string :=
  [ "constructor"; "hasOwnProperty"; "isPrototypeOf"; "propertyIsEnumerable";
    "toLocaleString"; "toString"; "valueOf";
    "__defineGetter__"; "__defineSetter__"; "__lookupGetter__"; "__lookupSetter__" ].

(** The string-keyed properties of [Array.prototype] (ECMAScript 2023),
    met only after the prototype of [data] has been replaced by an array. *)
Definition Array_prototype_keys : list string :=
  [ "length"; "constructor"; "at"; "concat"; "copyWithin"; "entries"; "every";
    "fill"; "filter"; "find"; "findIndex"; "findLast"; "findLastIndex"; "flat";
    "flatMap"; "forEach"; "includes"; "indexOf"; "join"; "keys"; "lastIndexOf";
    "map"; "pop"; "push"; "reduce"; "reduceRight"; "reverse"; "shift"; "slice";
    "some"; "sort"; "splice"; "toLocaleString"; "toReversed"; "toSorted";
    "toSpliced"; "toString"; "unshift"; "values"; "with" ].

Definition mem (key : string) (keys : list string) : bool :=
  existsb (String.eqb key) keys.

(** The index an array of length [len] has under the property name [key]:
    the canonical decimal numerals below [len]. *)
Definition array_index (len : nat) (key : string) : option nat :=
  List.find (fun i => String.eqb (pretty i) key) (seq 0 len).

(** Lookup that starts at [Object.prototype]. *)
Definition Object_prototype_get (this_proto : option (list JsValue))
    (key : string) : JsValue :=
  if String.eqb key "__proto__" then
    match this_proto with
    | None => VNative "Object.prototype"
    | Some elems => VArr elems
    end
  else if mem key Object_prototype_keys then VNative ("Object.prototype." +:+ key)
  else VUndefined.

(** Lookup that starts at an Array instance with elements [elems]. *)
Definition Array_instance_get (this_proto : option (list JsValue))
    (elems : list JsValue) (key : string) : JsValue :=
  match array_index (length elems) key with
  | Some i => nth i elems VUndefined
  | None =>
      if String.eqb key "length" then VNum (inject_Z (Z.of_nat (length elems)))
      else if mem key Array_prototype_keys then VNative ("Array.prototype." +:+ key)
      else Object_prototype_get this_proto key
  end.

(** [data[key]] *)
Definition GetProp (data : Obj) (key : string) : JsValue :=
  match own data !! key with
  | Some v => v
  | None =>
      match proto data with
      | None => Object_prototype_get (proto data) key
      | Some elems => Array_instance_get (proto data) elems key
      end
  end.

(** [data[key] = v].  Every inherited data property is writable, so the
    write creates or updates an own property, except under ["__proto__"],
    where the setter replaces the prototype by an object [v] and ignores
    any other [v].  The only objects this program assigns are arrays. *)
Definition SetProp (data : Obj) (key : string) (v : JsValue) : Obj :=
  match own data !! key with
  | Some _ => mkObj (<[key := v]> (own data)) (proto data)
  | None =>
      if String.eqb key "__proto__" then
        match v with
        | VArr elems => mkObj (own data) (Some elems)
        | _ => data
        end
      else mkObj (<[key := v]> (own data)) (proto data)
  end.

(** [data[key].push(value)] when [data[key]] is the array [elems]: the
    array object is mutated in place, wherever the read found it. *)
Definition PushProp (data : Obj) (key : string) (elems : list JsValue)
    (value : JsValue) : Obj :=
  match own data !! key with
  | Some _ => mkObj (<[key := VArr (elems ++ [value])%list]> (own data)) (proto data)
  | None =>
      match proto data with
      | None => data
      | Some pelems =>
          match array_index (length pelems) key with
          | Some i => mkObj (own data) (Some (<[i := VArr (elems ++ [value])%list]> pelems))
          | None =>
              if String.eqb key "__proto__" then mkObj (own data) (Some (elems ++ [value])%list)
              else data
          end
      end
  end.

Definition is_undefined (v : JsValue) : bool :=
  match v with
  | VUndefined => true
  | _ => false
  end.

(** ** Requests *)

(** A [Headers] collection, as the sequence of (name, value) pairs its
    iteration yields, names in lower case. *)
Definition Headers := list (string * string).

(** [headers.get(name)] *)
Fixpoint Headers_get (headers : Headers) (name : string) : option string :=
  match headers with
  | [] => None
  | (k, v) :: rest => if String.eqb k name then Some v else Headers_get rest name
  end.

(** A form field value: a string or an uploaded file. *)
Inductive FormDataEntryValue :=
| EntryString (s : string)
| EntryFile (f : File).

Definition entry_value (e : FormDataEntryValue) : JsValue :=
  match e with
  | EntryString s => VStr s
  | EntryFile f => VFile f
  end.

Definition FormData := list (string * FormDataEntryValue).
Definition URLSearchParams := list (string * string).

(** A [Request]: its headers, the query pairs of its URL, and what reading
    its body as JSON or as form data settles to. *)
Record Request := mkRequest {
  request_headers : Headers;
  request_searchParams : URLSearchParams;
  request_json : Promise JsValue;
  request_formData : Promise FormData
}.

(* ===================================================================== *)
(** * 2. The schema engine at its boundary                                *)
(* ===================================================================== *)

(** Running a schema on a value has three ends: the schema accepts and
    yields the parsed data, the schema reports issues (a [ZodError]), or a
    callback the schema was built from throws.  The engine does not catch
    what a callback throws, so it leaves [parseAsync] and [safeParseAsync]
    alike as a rejection. *)
Inductive SchemaRun :=
| Valid (data : JsValue)
| Invalid (error : JsValue)
| Threw (exn : JsValue).

Definition ZodType := JsValue -> SchemaRun.

Definition ZodError (message : string) : JsValue := VError "ZodError" message.

(** [schema.parseAsync(value)] *)
Definition parseAsync (schema : ZodType) (value : JsValue) : Promise JsValue :=
  match schema value with
  | Valid data => Resolved data
  | Invalid error => Rejected error
  | Threw exn => Rejected exn
  end.

(** The tagged result [{success: true, data} | {success: false, error}]. *)
Inductive SafeParseReturn :=
| SafeSuccess (data : JsValue)
| SafeError (error : JsValue).

(** [schema.safeParseAsync(value)] *)
Definition safeParseAsync (schema : ZodType) (value : JsValue) : Promise SafeParseReturn :=
  match schema value with
  | Valid data => Resolved (SafeSuccess data)
  | Invalid error => Resolved (SafeError error)
  | Threw exn => Rejected exn
  end.

(** [zod.unknown()] *)
Definition zod_unknown : ZodType := Valid.

(** [zod.custom(check)] *)
Definition zod_custom (check : JsValue -> Completion bool) : ZodType :=
  fun val =>
    match check val with
    | Normal true => Valid val
    | Normal false => Invalid (ZodError "Invalid input")
    | Abrupt exn => Threw exn
    end.

(** [zod.preprocess(transform, schema)] *)
Definition zod_preprocess (transform : JsValue -> Completion JsValue)
    (schema : ZodType) : ZodType :=
  fun val =>
    match transform val with
    | Normal processed => schema processed
    | Abrupt exn => Threw exn
    end.

(** [.then(result => result.success ? result.data : defaultValue)] *)
Definition orDefault (defaultValue : JsValue) (result : SafeParseReturn) : JsValue :=
  match result with
  | SafeSuccess data => data
  | SafeError _ => defaultValue
  end.

(* ===================================================================== *)
(** * 3. index.ts                                                         *)
(* ===================================================================== *)

(** ** The bad-request signal *)

(** The two module-level bindings [badRequestMessage] and
    [customBadRequestJson], read when a bad request is thrown. *)
Record Config := mkConfig {
  badRequestMessage : string;
  customBadRequestJson : string -> JsValue
}.

Definition default_config : Config :=
  mkConfig "Bad Request" (fun message => VStr message).

(** Remix's [json(data, init)]: a response whose body is [data]. *)
Definition json (data : JsValue) (status : Z) (statusText : string) : JsValue :=
  VResponse data status statusText.

Definition BadRequest (cfg : Config) : JsValue :=
  json (customBadRequestJson cfg (badRequestMessage cfg)) 400 (badRequestMessage cfg).

Definition throwBadRequest {A : Type} (cfg : Config) : Completion A :=
  Throw (BadRequest cfg).

(** ** Body encoding *)

Inductive BodyEncoding := enc_json | enc_form | enc_text.

Definition optional_includes (contentType : option string) (searchString : string) : bool :=
  match contentType with
  | Some s => includes s searchString
  | None => false
  end.

Definition getBodyEncoding (request : Request) : BodyEncoding :=
  let contentType := Headers_get (request_headers request) "content-type" in
  if optional_includes contentType "application/json" then enc_json
  else if optional_includes contentType "multipart/form-data" then enc_form
  else enc_text.

(** ** parseOrThrow

    The [catch] has no filter: issues and thrown callbacks both end in the
    bad request.  (With [debug] set the error is also printed.) *)
Definition parseOrThrow (cfg : Config) (schema : ZodType) (value : JsValue) : Promise JsValue :=
  match parseAsync schema value with
  | Normal data => Resolved data
  | Abrupt _ => throwBadRequest cfg
  end.

(** ** convertToBytes *)

Record FileSize := mkFileSize {
  size_value : Q;
  size_unit : string
}.

Definition InvalidUnit : JsValue := VError "Error" "Invalid file size unit.".

Definition convertToBytes (fileSize : FileSize) : Completion Q :=
  let value := size_value fileSize in
  let unit := size_unit fileSize in
  if String.eqb unit "B" then Return value
  else if String.eqb unit "KB" then Return (value * 1024)%Q
  else if String.eqb unit "MB" then Return (value * 1024 * 1024)%Q
  else if String.eqb unit "GB" then Return (value * 1024 * 1024 * 1024)%Q
  else if String.eqb unit "TB" then Return (value * 1024 * 1024 * 1024 * 1024)%Q
  else Throw InvalidUnit.

(** ** JSON bodies *)

Definition parseJson (cfg : Config) (request : Request) (schema : ZodType) : Promise JsValue :=
  let! body := request_json request in
  parseOrThrow cfg schema body.

Definition parseJsonSafe (request : Request) (schema : ZodType) : Promise SafeParseReturn :=
  let! body := request_json request in
  safeParseAsync schema body.

Definition parseJsonWithDefault (request : Request) (schema : ZodType)
    (defaultValue : JsValue) : Promise JsValue :=
  let! body := request_json request in
  let! result := safeParseAsync schema body in
  Resolved (orDefault defaultValue result).

(** ** The multi-value fold

    The callback of [form.forEach], [search.forEach] and [headers.forEach]
    is the same in the three functions. *)
Definition fold_step (data : Obj) (entry : string * JsValue) : Obj :=
  let '(key, value) := entry in
  let current := GetProp data key in
  if negb (is_undefined current) then
    match current with
    | VArr elems => PushProp data key elems value
    | _ => PushProp (SetProp data key (VArr [current])) key [current] value
    end
  else SetProp data key value.

Definition formToObject (form : FormData) : Obj :=
  fold_left fold_step (map (fun '(key, value) => (key, entry_value value)) form) empty_object.

Definition searchParamsToObject (search : URLSearchParams) : Obj :=
  fold_left fold_step (map (fun '(key, value) => (key, VStr value)) search) empty_object.

Definition headersToObject (headers : Headers) : Obj :=
  fold_left fold_step (map (fun '(key, value) => (key, VStr value)) headers) empty_object.

Definition object_value (data : Obj) : JsValue := VObj (own data) (proto data).

(** ** Form bodies *)

Definition parseForm (cfg : Config) (request : Request) (schema : ZodType) : Promise JsValue :=
  let! body := request_formData request in
  let data := formToObject body in
  parseOrThrow cfg schema (object_value data).

Definition parseFormSafe (request : Request) (schema : ZodType) : Promise SafeParseReturn :=
  let! body := request_formData request in
  let data := formToObject body in
  safeParseAsync schema (object_value data).

Definition parseFormWithDefault (request : Request) (schema : ZodType)
    (defaultValue : JsValue) : Promise JsValue :=
  let! body := request_formData request in
  let data := formToObject body in
  let! result := safeParseAsync schema (object_value data) in
  Resolved (orDefault defaultValue result).

(** ** Unified bodies *)

Definition parseBody (cfg : Config) (request : Request) (schema : ZodType) : Promise JsValue :=
  match getBodyEncoding request with
  | enc_json => parseJson cfg request schema
  | enc_form => parseForm cfg request schema
  | enc_text => throwBadRequest cfg
  end.

Definition parseBodySafe (cfg : Config) (request : Request) (schema : ZodType)
    : Promise SafeParseReturn :=
  match getBodyEncoding request with
  | enc_json => parseJsonSafe request schema
  | enc_form => parseFormSafe request schema
  | enc_text => throwBadRequest cfg
  end.

Definition parseBodyWithDefault (cfg : Config) (request : Request) (schema : ZodType)
    (defaultValue : JsValue) : Promise JsValue :=
  match getBodyEncoding request with
  | enc_json => parseJsonWithDefault request schema defaultValue
  | enc_form => parseFormWithDefault request schema defaultValue
  | enc_text => throwBadRequest cfg
  end.

(** ** Path parameters *)

Definition parseParams (cfg : Config) (params : JsValue) (schema : ZodType) : Promise JsValue :=
  parseOrThrow cfg schema params.

Definition parseParamsSafe (params : JsValue) (schema : ZodType) : Promise SafeParseReturn :=
  safeParseAsync schema params.

Definition parseParamsWithDefault (params : JsValue) (schema : ZodType)
    (defaultValue : JsValue) : Promise JsValue :=
  let! result := safeParseAsync schema params in
  Resolved (orDefault defaultValue result).

(** ** Query parameters: a [Request] or a bare [URLSearchParams] *)

Inductive QuerySource :=
| FromRequest (request : Request)
| FromSearchParams (search : URLSearchParams).

(** The value that reaches the schema. *)
Definition query_input (request : QuerySource) : JsValue :=
  match request with
  | FromSearchParams search => VSearchParams search
  | FromRequest r =>
      let query := request_searchParams r in
      let data := searchParamsToObject query in
      object_value data
  end.

Definition parseQuery (cfg : Config) (request : QuerySource) (schema : ZodType) : Promise JsValue :=
  match request with
  | FromSearchParams search => parseOrThrow cfg schema (VSearchParams search)
  | FromRequest r =>
      let query := request_searchParams r in
      let data := searchParamsToObject query in
      parseOrThrow cfg schema (object_value data)
  end.

Definition parseQuerySafe (request : QuerySource) (schema : ZodType) : Promise SafeParseReturn :=
  match request with
  | FromSearchParams search => safeParseAsync schema (VSearchParams search)
  | FromRequest r =>
      let query := request_searchParams r in
      let data := searchParamsToObject query in
      safeParseAsync schema (object_value data)
  end.

Definition parseQueryWithDefault (request : QuerySource) (schema : ZodType)
    (defaultValue : JsValue) : Promise JsValue :=
  match request with
  | FromSearchParams search =>
      let! result := safeParseAsync schema (VSearchParams search) in
      Resolved (orDefault defaultValue result)
  | FromRequest r =>
      let query := request_searchParams r in
      let data := searchParamsToObject query in
      let! result := safeParseAsync schema (object_value data) in
      Resolved (orDefault defaultValue result)
  end.

(** ** Headers *)

Definition parseHeaders (cfg : Config) (headers : Headers) (schema : ZodType) : Promise JsValue :=
  parseOrThrow cfg schema (object_value (headersToObject headers)).

Definition parseHeadersSafe (headers : Headers) (schema : ZodType) : Promise SafeParseReturn :=
  safeParseAsync schema (object_value (headersToObject headers)).


(** ** Loader and action binders *)

Record LoaderFunctionArgs := mkArgs {
  args_request : Request;
  args_params : JsValue;
  args_context : JsValue
}.

Definition ActionFunctionArgs := LoaderFunctionArgs.

(** [{...args, parsedParams, parsedQuery}] *)
Record ZodLoaderFunctionArgs := mkLoaderArgs {
  loader_args : LoaderFunctionArgs;
  loader_parsedParams : JsValue;
  parsedQuery : JsValue
}.

(** [{...args, parsedParams, parsedBody}] *)
Record ZodActionFunctionArgs := mkActionArgs {
  action_args : ActionFunctionArgs;
  parsedParams : JsValue;
  parsedBody : JsValue
}.

(** What one call of a bound handler did: the argument objects the wrapped
    handler was invoked with, in order, and the promise returned. *)
Record Invocation (Args : Type) := mkInvocation {
  handler_calls : list Args;
  returned : Promise JsValue
}.
Arguments mkInvocation {Args} handler_calls returned.
Arguments handler_calls {Args} i.
Arguments returned {Args} i.

(** The schemas object [{params?, body?}]; an absent schema defaults to
    [zod.unknown()]. *)
Definition schema_or_unknown (schema : option ZodType) : ZodType :=
  match schema with
  | Some s => s
  | None => zod_unknown
  end.

Definition zodLoader (cfg : Config) (params query : option ZodType)
    (loader : ZodLoaderFunctionArgs -> Promise JsValue)
    (args : LoaderFunctionArgs) : Invocation ZodLoaderFunctionArgs :=
  let params := schema_or_unknown params in
  let query := schema_or_unknown query in
  match parseParams cfg (args_params args) params with
  | Abrupt e => mkInvocation [] (Rejected e)
  | Normal pp =>
      match parseQuery cfg (FromRequest (args_request args)) query with
      | Abrupt e => mkInvocation [] (Rejected e)
      | Normal pq =>
          let zargs := mkLoaderArgs args pp pq in
          mkInvocation [zargs] (loader zargs)
      end
  end.

Definition zodAction (cfg : Config) (params body : option ZodType)
    (action : ZodActionFunctionArgs -> Promise JsValue)
    (args : ActionFunctionArgs) : Invocation ZodActionFunctionArgs :=
  let params := schema_or_unknown params in
  let body := schema_or_unknown body in
  match parseParams cfg (args_params args) params with
  | Abrupt e => mkInvocation [] (Rejected e)
  | Normal pp =>
      match parseBody cfg (args_request args) body with
      | Abrupt e => mkInvocation [] (Rejected e)
      | Normal pb =>
          let zargs := mkActionArgs args pp pb in
          mkInvocation [zargs] (action zargs)
      end
  end.

(** ** The schema-wrapped cookie

    [createZodCookie] returns [Object.assign(cookie, {parse, ...})]: the
    new methods are written onto the cookie object that was passed in, and
    the new [parse] calls [cookie.parse(...)] on that same object when it
    runs.  A cookie object is therefore a table of properties, and a method
    call reads the table at the time of the call. *)

Inductive Property :=
| CodecMethod (f : string -> JsValue)
| InstalledParse (schema : ZodType)
| DataProperty (v : JsValue).

(** A cookie as the framework creates it: its own [parse] and [serialize]
    and its name. *)
Definition codec_cookie (name : string) (decode encode : string -> JsValue)
    : gmap string Property :=
  {[ "name" := DataProperty (VStr name);
     "parse" := CodecMethod decode;
     "serialize" := CodecMethod encode ]}.

(** [Object.assign(target, source)]: every own property of [source] is
    written onto [target], replacing a property of the same name; the
    result is [target] itself. *)
Definition Object_assign (target source : gmap string Property) : gmap string Property :=
  source ∪ target.

(** The object after [createZodCookie(cookie, schema)], as far as its
    [parse] goes ([parseSafe], [parseWithDefault], [serialize] and
    [serializeWithDefault] are installed by the same call). *)
Definition createZodCookie (cookie : gmap string Property) (schema : ZodType)
    : gmap string Property :=
  Object_assign cookie {[ "parse" := InstalledParse schema ]}.

(** [string | null | Request | Headers] *)
Inductive CookieHeader :=
| HeaderString (s : string)
| HeaderNull
| HeaderRequest (request : Request)
| HeaderHeaders (headers : Headers).

Definition empty_mapping : JsValue := VObj ∅ None.

Definition not_a_function : JsValue := VError "TypeError" "cookie.parse is not a function".

(** What the engine throws at a call that no longer fits on the stack. *)
Definition RangeError : JsValue := VError "RangeError" "Maximum call stack size exceeded".

(** Promise resolution: a promise resolved with a value is fulfilled with
    it, unless the value is itself a promise, whose state it then takes
    over. *)
Fixpoint resolve (v : JsValue) : Promise JsValue :=
  match v with
  | VPromise (Normal v') => resolve v'
  | VPromise (Abrupt reason) => Rejected reason
  | _ => Resolved v
  end.

(** [return await p] in an [async] method: the promise of the method is
    resolved with what [p] was fulfilled with, or rejected as [p] was.
    [schema.parseAsync] returns the parsed data from an [async] function,
    so data that is a promise is taken over in the same way. *)
Definition awaited (p : Promise JsValue) : Promise JsValue :=
  match p with
  | Normal v => resolve v
  | Abrupt reason => Rejected reason
  end.

(** The installed [parse], called with room for [depth] nested frames of
    itself on the stack.  [None] means that the call itself does not fit:
    the engine throws a [RangeError] at the call site.  Otherwise the
    method, being [async], returns a promise, given here by what it
    settles to; whatever is thrown while its body runs, the [RangeError]
    of the inner call included, rejects that promise.  The inner call
    [cookie.parse(headers)] is made while the argument of
    [schema.parseAsync] is evaluated, so what it returns, a promise when
    the property holds the installed method, is what the schema receives.
    (Only the frames of the installed [parse] are counted; the calls of
    the schema and of a codec are taken to fit.) *)
Fixpoint zod_parse (depth : nat) (cookie : gmap string Property) (schema : ZodType)
    (cookieHeader : CookieHeader) : option (Promise JsValue) :=
  match depth with
  | O => None
  | S depth' =>
      let call_cookie_parse (headers : string) : Completion JsValue :=
        match cookie !! "parse" with
        | Some (CodecMethod f) => Return (f headers)
        | Some (InstalledParse schema') =>
            match zod_parse depth' cookie schema' (HeaderString headers) with
            | Some promise => Return (VPromise promise)
            | None => Throw RangeError
            end
        | _ => Throw not_a_function
        end in
      let parse_decoded (headers : string) : Promise JsValue :=
        match call_cookie_parse headers with
        | Normal decoded => awaited (parseAsync schema decoded)
        | Abrupt exn => Rejected exn
        end in
      match cookieHeader with
      | HeaderRequest request =>
          let headers := Headers_get (request_headers request) "cookie" in
          if negb (truthy headers) then Some (awaited (parseAsync schema empty_mapping))
          else Some (parse_decoded (ToString headers))
      | HeaderHeaders hs =>
          let headers := Headers_get hs "cookie" in
          if negb (truthy headers) then Some (awaited (parseAsync schema empty_mapping))
          else Some (parse_decoded (ToString headers))
      | HeaderNull => Some (awaited (parseAsync schema empty_mapping))
      | HeaderString s =>
          if negb (truthy (Some s)) then Some (awaited (parseAsync schema empty_mapping))
          else Some (parse_decoded s)
      end
  end.

(** [createZodCookie(cookie, schema).parse(cookieHeader)]: the installed
    method, run on the object that [createZodCookie] returned. *)
Definition zodCookie_parse (depth : nat) (cookie : gmap string Property) (schema : ZodType)
    (cookieHeader : CookieHeader) : option (Promise JsValue) :=
  zod_parse depth (createZodCookie cookie schema) schema cookieHeader.

(** ** Schema extensions: [zx.file] and [zx.base64File] *)

Inductive Mimetype :=
| MimeString (s : string)
| MimeArray (l : list string).

Record FileOptions := mkFileOptions {
  minimumSize : option FileSize;
  maximumSize : option FileSize;
  mimetype : option Mimetype
}.

Definition no_options : FileOptions := mkFileOptions None None None.

(** [if (mimetype)]: an array is truthy, a string is truthy unless empty. *)
Definition mimetype_given (m : option Mimetype) : option Mimetype :=
  match m with
  | Some (MimeString "") => None
  | _ => m
  end.

Definition Qltb (a b : Q) : bool := negb (Qle_bool b a).

(** The predicate given to [zod.custom] by [zx.file]. *)
Definition file_check (opts : FileOptions) (val : JsValue) : Completion bool :=
  match val with
  | VFile f =>
      let mime_rejects :=
        match mimetype_given (mimetype opts) with
        | Some (MimeArray l) => negb (mem (file_type f) l)
        | Some (MimeString s) => negb (String.eqb (file_type f) s)
        | None => false
        end in
      if mime_rejects then Return false
      else
        let! below :=
          match minimumSize opts with
          | Some minimum =>
              let! bytes := convertToBytes minimum in
              Return (Qltb (inject_Z (file_size f)) bytes)
          | None => Return false
          end in
        if below then Return false
        else
          let! above :=
            match maximumSize opts with
            | Some maximum =>
                let! bytes := convertToBytes maximum in
                Return (Qltb bytes (inject_Z (file_size f)))
            | None => Return false
            end in
          if above then Return false
          else Return true
  | _ => Return false
  end.

Definition zx_file (opts : FileOptions) : ZodType := zod_custom (file_check opts).

(** The preprocessor of [zx.base64File]. *)
Definition base64File_preprocess (val : JsValue) : Completion JsValue :=
  match val with
  | VFile _ => Return val
  | VStr s =>
      let! byteString := atob (ToString (split "," s !! 1%nat)) in
      let! mimeString :=
        match split ":" (ToString (split "," s !! 0%nat)) !! 1%nat with
        | Some rest => Return (ToString (split ";" rest !! 0%nat))
        | None => Throw (VError "TypeError" "Cannot read properties of undefined (reading 'split')")
        end in
      let extension := split "/" mimeString !! 1%nat in
      Return (VFile (mkFile ("file." +:+ ToString extension)
                            (Blob_type mimeString)
                            (Z.of_nat (String.length byteString))))
  | _ => Throw (VError "Error" "Value must be a string")
  end.

Definition zx_base64File (opts : FileOptions) : ZodType :=
  zod_preprocess base64File_preprocess (zx_file opts).

(* ===================================================================== *)
(** * 4. Vocabulary of the properties                                     *)
(* ===================================================================== *)

Ltac invert H := inversion H; subst; clear H.

(** [t] occurs in [s]. *)
Definition Substring (t s : string) : Prop :=
  exists before after, s = before +:+ t +:+ after.

(** The unit table as the specification words it: the exponent of 1024
    for each enumerated unit, nothing for any other tag. *)
Definition unit_exponent (unit : string) : option Z :=
  snd <$> List.find (fun entry => String.eqb unit (fst entry))
            [("B", 0%Z); ("KB", 1%Z); ("MB", 2%Z); ("GB", 3%Z); ("TB", 4%Z)].

Definition enumerated_unit (unit : string) : Prop :=
  In unit ["B"; "KB"; "MB"; "GB"; "TB"].

Definition accepts (schema : ZodType) (value data : JsValue) : Prop :=
  schema value = Valid data.

Definition rejects (schema : ZodType) (value : JsValue) : Prop :=
  exists error, schema value = Invalid error.

(** A schema that accepts nothing, [zod.never()]. *)
Definition zod_never : ZodType := fun _ => Invalid (ZodError "Expected never").

Definition request_without_content_type : Request :=
  mkRequest [] [] (Resolved VNull) (Resolved []).

(** A request that carries the content-type header [contentType]. *)
Definition content_type_request (contentType : string) : Request :=
  mkRequest [("content-type", contentType)] [] (Resolved VNull) (Resolved []).

(** A schema that tells the two input forms apart: it accepts plain
    objects only. *)
Definition plain_object_schema : ZodType :=
  fun val =>
    match val with
    | VObj _ _ => Valid val
    | _ => Invalid (ZodError "Expected object")
    end.

(** The request body as the body schema gets to see it: the JSON value or
    the folded form, when the content type selects one of them and the
    body can be read. *)
Definition body_input (request : Request) : option JsValue :=
  match getBodyEncoding request with
  | enc_json =>
      match request_json request with
      | Normal body => Some body
      | Abrupt _ => None
      end
  | enc_form =>
      match request_formData request with
      | Normal body => Some (object_value (formToObject body))
      | Abrupt _ => None
      end
  | enc_text => None
  end.

Definition echo_handler : ZodActionFunctionArgs -> Promise JsValue :=
  fun zargs => Resolved (parsedBody zargs).

Definition bare_args : ActionFunctionArgs :=
  mkArgs request_without_content_type (VObj ∅ None) VNull.

Definition urlencoded_args : ActionFunctionArgs :=
  mkArgs (mkRequest [("content-type", "application/x-www-form-urlencoded")] []
            (Rejected (VError "SyntaxError" "Unexpected token")) (Resolved [("name", EntryString "a")]))
         (VObj ∅ None) VNull.

(** A schema for [{name: string}], as far as the example needs it. *)
Definition name_schema : ZodType :=
  fun val =>
    match val with
    | VObj own _ =>
        match own !! "name" with
        | Some (VStr _) => Valid val
        | _ => Invalid (ZodError "Expected string")
        end
    | _ => Invalid (ZodError "Expected object")
    end.

Definition json_request (body : JsValue) : Request :=
  mkRequest [("content-type", "application/json")] [] (Resolved body) (Resolved []).

Definition name_a : JsValue := VObj {["name" := VStr "a"]} None.
Definition name_5 : JsValue := VObj {["name" := VNum 5]} None.

Definition well_formed_size (size : option FileSize) : Prop :=
  match size with
  | Some fs => enumerated_unit (size_unit fs)
  | None => True
  end.

Definition mime_matches (constraint : option Mimetype) (type : string) : Prop :=
  match constraint with
  | Some (MimeString s) => type = s
  | Some (MimeArray l) => In type l
  | None => True
  end.

(** The MIME clause with the empty constraint string set apart: a
    non-empty constraint string has to be the file's type and a constraint
    list has to contain it, while an empty string, like an absent
    constraint, allows every type. *)
Definition mime_allows (constraint : option Mimetype) (type : string) : Prop :=
  match constraint with
  | Some (MimeString "") => True
  | Some (MimeString s) => type = s
  | Some (MimeArray l) => In type l
  | None => True
  end.

Definition at_least (minimum : option FileSize) (size : Z) : Prop :=
  match minimum with
  | Some fs => exists bytes, convertToBytes fs = Return bytes /\ (bytes <= inject_Z size)%Q
  | None => True
  end.

Definition at_most (maximum : option FileSize) (size : Z) : Prop :=
  match maximum with
  | Some fs => exists bytes, convertToBytes fs = Return bytes /\ (inject_Z size <= bytes)%Q
  | None => True
  end.

Definition without_mimetype (opts : FileOptions) : FileOptions :=
  mkFileOptions (minimumSize opts) (maximumSize opts) None.

Definition one_megabyte : FileOptions :=
  mkFileOptions None (Some (mkFileSize 1 "MB")) None.

(** The values supplied for [key], in source order. *)
Fixpoint values_of (key : string) (pairs : list (string * JsValue)) : list JsValue :=
  match pairs with
  | [] => []
  | (k, v) :: rest =>
      if String.eqb k key then v :: values_of key rest else values_of key rest
  end.

(** What the fold is meant to store for the values of one key: nothing,
    the value itself, or the sequence of the values. *)
Definition folded (values : list JsValue) : option JsValue :=
  match values with
  | [] => None
  | [v] => Some v
  | _ => Some (VArr values)
  end.

(** The entry values the three collections yield: strings and files. *)
Definition scalar (v : JsValue) : Prop :=
  match v with
  | VStr _ | VFile _ => True
  | _ => False
  end.

(** The keys a fresh object already answers to. *)
Definition inherited (key : string) : bool :=
  String.eqb key "__proto__" || mem key Object_prototype_keys.

Definition ordinary (pairs : list (string * JsValue)) : Prop :=
  Forall (fun entry => inherited (fst entry) = false /\ scalar (snd entry)) pairs.

(** The state of [data] after the pairs [seen] have been visited. *)
Definition fold_invariant (data : Obj) (seen : list (string * JsValue)) : Prop :=
  proto data = None /\
  forall key, own data !! key = folded (values_of key seen).

Definition string_entries (pairs : list (string * string)) : list (string * JsValue) :=
  map (fun '(key, value) => (key, VStr value)) pairs.

Definition form_entries (form : FormData) : list (string * JsValue) :=
  map (fun '(key, value) => (key, entry_value value)) form.

(** ** Further vocabulary: the fold on all keys *)

(** What a fresh object already holds under [key]: the inherited function,
    for the names of [Object.prototype], and nothing otherwise. *)
Definition preset (key : string) : list JsValue :=
  if mem key Object_prototype_keys then [VNative ("Object.prototype." +:+ key)] else [].

(** The entry the fold keeps for a key with the supplied [values]. *)
Definition stored (key : string) (values : list JsValue) : option JsValue :=
  match values with
  | [] => None
  | _ => folded (preset key ++ values)
  end.

(** Pairs with scalar values and without the key ["__proto__"]. *)
Definition proto_free (pairs : list (string * JsValue)) : Prop :=
  Forall (fun entry => fst entry <> "__proto__" /\ scalar (snd entry)) pairs.

(** Elements an array that became the prototype can hold. *)
Definition flat (v : JsValue) : Prop :=
  match v with
  | VArr _ => False
  | _ => True
  end.

(** The state of [data] after the pairs [seen], none under ["__proto__"],
    have been visited. *)
Definition stored_invariant (data : Obj) (seen : list (string * JsValue)) : Prop :=
  proto data = None /\
  forall key, own data !! key = stored key (values_of key seen).

(** The keys of a sequence of pairs. *)
Definition keys_of {A : Type} (pairs : list (string * A)) : list string :=
  map fst pairs.

Definition no_proto_key {A : Type} (pairs : list (string * A)) : Prop :=
  Forall (fun key => key <> "__proto__") (keys_of pairs).

(** The entry of the folded object [data] under [key], given the values
    supplied for [key]: no entry without values; for a name that plain
    objects inherit, the sequence that starts with the inherited function
    and continues with the values; for any other name, the single value or
    the sequence of the values. *)
Definition fold_entry (data : Obj) (key : string) (values : list JsValue) : Prop :=
  (values = [] -> own data !! key = None) /\
  (mem key Object_prototype_keys = true -> values <> [] ->
     own data !! key = Some (VArr (VNative ("Object.prototype." +:+ key) :: values))) /\
  (mem key Object_prototype_keys = false -> forall v, values = [v] ->
     own data !! key = Some v) /\
  (mem key Object_prototype_keys = false -> (1 < length values)%nat ->
     own data !! key = Some (VArr values)).

(** The prototype of the folded object, given the values supplied under
    ["__proto__"]: untouched without such values, otherwise an array that
    holds [Object.prototype] followed by those values. *)
Definition folded_prototype (values : list JsValue) : option (list JsValue) :=
  match values with
  | [] => None
  | _ => Some (VNative "Object.prototype" :: values)
  end.

Definition prototype_invariant (data : Obj) (seen : list (string * JsValue)) : Prop :=
  own data !! "__proto__" = None /\
  proto data = folded_prototype (values_of "__proto__" seen).

Definition all_scalar (pairs : list (string * JsValue)) : Prop :=
  Forall (fun entry => scalar (snd entry)) pairs.

(** ** Further vocabulary: outcome shapes *)

(** No callback of the schema throws on [value]. *)
Definition runs_clean (schema : ZodType) (value : JsValue) : Prop :=
  forall exn, schema value <> Threw exn.

(** The tagged result that corresponds to a schema run without a throw. *)
Definition tagged (run : SchemaRun) (result : SafeParseReturn) : Prop :=
  match run with
  | Valid data => result = SafeSuccess data
  | Invalid error => result = SafeError error
  | Threw _ => False
  end.

(** What the unified body parsers read before they validate: the JSON
    value, the folded form, or, for any other content type, the thrown bad
    request. *)
Definition body_read (cfg : Config) (request : Request) : Promise JsValue :=
  match getBodyEncoding request with
  | enc_json => request_json request
  | enc_form =>
      let! body := request_formData request in
      Resolved (object_value (formToObject body))
  | enc_text => throwBadRequest cfg
  end.

(** A throwing parser and a safe parser agree: the one resolves with the
    data exactly when the other resolves with the success tag, and a
    failure tag of the safe one is the bad request of the throwing one. *)
Definition shapes_agree (cfg : Config) (throwing : Promise JsValue)
    (safe : Promise SafeParseReturn) : Prop :=
  (forall data, safe = Resolved (SafeSuccess data) <-> throwing = Resolved data) /\
  (forall error, safe = Resolved (SafeError error) -> throwing = Rejected (BadRequest cfg)).

(** ** Further schemas of [zx] and the engine combinators they use *)

(** [zod.string()] *)
Definition zod_string : ZodType :=
  fun val =>
    match val with
    | VStr _ => Valid val
    | _ => Invalid (ZodError "Expected string")
    end.

(** [schema.refine(check, {message})]: the check runs on what the schema
    accepted. *)
Definition zod_refine (schema : ZodType) (check : JsValue -> Completion bool)
    (message : string) : ZodType :=
  fun val =>
    match schema val with
    | Valid data =>
        match check data with
        | Normal true => Valid data
        | Normal false => Invalid (ZodError message)
        | Abrupt exn => Threw exn
        end
    | run => run
    end.

(** [schema.transform(f)] *)
Definition zod_transform (schema : ZodType) (f : JsValue -> Completion JsValue) : ZodType :=
  fun val =>
    match schema val with
    | Valid data =>
        match f data with
        | Normal result => Valid result
        | Abrupt exn => Threw exn
        end
    | run => run
    end.

(** The elements of an array under [zod.array(schema)]: every element is
    run, in order; what the first throwing element throws ends the run;
    otherwise the parsed elements, or nothing when an element had issues. *)
Fixpoint zod_array_elements (schema : ZodType) (elems : list JsValue)
    : Completion (option (list JsValue)) :=
  match elems with
  | [] => Return (Some [])
  | elem :: rest =>
      match schema elem with
      | Threw exn => Throw exn
      | run =>
          let! parsed := zod_array_elements schema rest in
          Return (match run, parsed with
                  | Valid data, Some datas => Some (data :: datas)
                  | _, _ => None
                  end)
      end
  end.

(** [zod.array(schema)] *)
Definition zod_array (schema : ZodType) : ZodType :=
  fun val =>
    match val with
    | VArr elems =>
        match zod_array_elements schema elems with
        | Normal (Some datas) => Valid (VArr datas)
        | Normal None => Invalid (ZodError "Invalid array")
        | Abrupt exn => Threw exn
        end
    | _ => Invalid (ZodError "Expected array")
    end.

(** The options of [zx.files] and [zx.base64Files]: the three of
    [zx.file], and two bounds on the number of files. *)
Record FilesOptions := mkFilesOptions {
  minimumFiles : option Q;
  maximumFiles : option Q;
  files_minimumSize : option FileSize;
  files_maximumSize : option FileSize;
  files_mimetype : option Mimetype
}.

Definition zx_files (opts : FilesOptions) : ZodType :=
  zod_array (zx_file (mkFileOptions (files_minimumSize opts) (files_maximumSize opts)
                        (files_mimetype opts))).

Definition zx_base64Files (opts : FileOptions) : ZodType :=
  zod_array (zx_base64File opts).

(** The refinement of [zx.base64]. *)
Definition base64_check (val : JsValue) : Completion bool :=
  match val with
  | VStr s =>
      let payload := if String.prefix "data:" s then split "," s !! 1%nat else Some s in
      match atob (ToString payload) with
      | Normal _ => Return true
      | Abrupt _ => Return false
      end
  | _ => Throw (VError "TypeError" "val.startsWith is not a function")
  end.

Definition zx_base64 : ZodType := zod_refine zod_string base64_check "Invalid input".

(** [val === 'true'] *)
Definition is_string (s : string) (val : JsValue) : bool :=
  match val with
  | VStr t => String.eqb t s
  | _ => false
  end.

Definition zx_stringBoolean : ZodType :=
  zod_transform
    (zod_refine zod_string
       (fun val => Return (is_string "true" val || is_string "false" val))
       "Value must be a boolean")
    (fun val => Return (VBool (is_string "true" val))).

(** The character [c] occurs in [s]. *)
Definition has_char (c : ascii) (s : string) : Prop :=
  In c (list_ascii_of_string s).

(** The MIME test of [zx.file] lets the file through. *)
Definition mime_passes (constraint : option Mimetype) (type : string) : Prop :=
  match mimetype_given constraint with
  | Some (MimeString s) => type = s
  | Some (MimeArray l) => In type l
  | None => True
  end.

Definition files_file_options (opts : FilesOptions) : FileOptions :=
  mkFileOptions (files_minimumSize opts) (files_maximumSize opts) (files_mimetype opts).

(** ** The other parsers of the schema-wrapped cookie *)

(** The method call [cookie.parse(headers)] on the cookie object in its
    current state, as made by every installed parser, with room for
    [depth] frames of the installed [parse]. *)
Definition cookie_parse_call (depth : nat) (cookie : gmap string Property)
    (headers : string) : Completion JsValue :=
  match cookie !! "parse" with
  | Some (CodecMethod f) => Return (f headers)
  | Some (InstalledParse schema') =>
      match zod_parse depth cookie schema' (HeaderString headers) with
      | Some promise => Return (VPromise promise)
      | None => Throw RangeError
      end
  | _ => Throw not_a_function
  end.

(** The installed [parseSafe].  The tagged result is an object, so a
    promise inside it stays as it is. *)
Definition zod_parseSafe (depth : nat) (cookie : gmap string Property) (schema : ZodType)
    (cookieHeader : CookieHeader) : option (Promise SafeParseReturn) :=
  match depth with
  | O => None
  | S depth' =>
      let parse_decoded (headers : string) : Promise SafeParseReturn :=
        match cookie_parse_call depth' cookie headers with
        | Normal decoded => safeParseAsync schema decoded
        | Abrupt exn => Rejected exn
        end in
      match cookieHeader with
      | HeaderRequest request =>
          let headers := Headers_get (request_headers request) "cookie" in
          if negb (truthy headers) then Some (safeParseAsync schema empty_mapping)
          else Some (parse_decoded (ToString headers))
      | HeaderHeaders hs =>
          let headers := Headers_get hs "cookie" in
          if negb (truthy headers) then Some (safeParseAsync schema empty_mapping)
          else Some (parse_decoded (ToString headers))
      | HeaderNull => Some (safeParseAsync schema empty_mapping)
      | HeaderString s =>
          if negb (truthy (Some s)) then Some (safeParseAsync schema empty_mapping)
          else Some (parse_decoded s)
      end
  end.

(** The installed [parseWithDefault].  What the [then] callback returns,
    the parsed data or the default, resolves the promise of the method, so
    a promise among them is taken over. *)
Definition zod_parseWithDefault (depth : nat) (cookie : gmap string Property)
    (schema : ZodType) (cookieHeader : CookieHeader) (defaultValue : JsValue)
    : option (Promise JsValue) :=
  match depth with
  | O => None
  | S depth' =>
      let with_default (value : JsValue) : Promise JsValue :=
        awaited (let! result := safeParseAsync schema value in
                 Resolved (orDefault defaultValue result)) in
      let parse_decoded (headers : string) : Promise JsValue :=
        match cookie_parse_call depth' cookie headers with
        | Normal decoded => with_default decoded
        | Abrupt exn => Rejected exn
        end in
      match cookieHeader with
      | HeaderRequest request =>
          let headers := Headers_get (request_headers request) "cookie" in
          if negb (truthy headers) then Some (with_default empty_mapping)
          else Some (parse_decoded (ToString headers))
      | HeaderHeaders hs =>
          let headers := Headers_get hs "cookie" in
          if negb (truthy headers) then Some (with_default empty_mapping)
          else Some (parse_decoded (ToString headers))
      | HeaderNull => Some (with_default empty_mapping)
      | HeaderString s =>
          if negb (truthy (Some s)) then Some (with_default empty_mapping)
          else Some (parse_decoded s)
      end
  end.

(** [createZodCookie(cookie, schema).parseSafe(cookieHeader)] and
    [.parseWithDefault(cookieHeader, defaultValue)] *)
Definition zodCookie_parseSafe (depth : nat) (cookie : gmap string Property)
    (schema : ZodType) (cookieHeader : CookieHeader) : option (Promise SafeParseReturn) :=
  zod_parseSafe depth (createZodCookie cookie schema) schema cookieHeader.

Definition zodCookie_parseWithDefault (depth : nat) (cookie : gmap string Property)
    (schema : ZodType) (cookieHeader : CookieHeader) (defaultValue : JsValue)
    : option (Promise JsValue) :=
  zod_parseWithDefault depth (createZodCookie cookie schema) schema cookieHeader defaultValue.

(** The cookie header an argument of the parsers carries, if any. *)
Definition cookie_header_of (cookieHeader : CookieHeader) : option string :=
  match cookieHeader with
  | HeaderString s => Some s
  | HeaderNull => None
  | HeaderRequest request => Headers_get (request_headers request) "cookie"
  | HeaderHeaders headers => Headers_get headers "cookie"
  end.

(* ===================================================================== *)
(** * 5. Properties                                                       *)
(* ===================================================================== *)

(** ** Substring containment *)

Lemma prefix_app t s :
  String.prefix t s = true <-> exists after, s = t +:+ after.
Proof.
  revert s. induction t as [|c t IH]; intros s.
  - split; [intros _; by exists s | intros _; by destruct s].
  - destruct s as [|d s]; simpl.
    + split; [done | intros [after H]; discriminate].
    + destruct (ascii_dec c d) as [->|Hne].
      * rewrite IH. split; intros [after H]; exists after; [by rewrite H | by invert H].
      * split; [done | intros [after H]]. invert H. done.
Qed.

Lemma includes_Substring s t : includes s t = true <-> Substring t s.
Proof.
  induction s as [|c s IH]; cbn [includes].
  - destruct (String.prefix t "") eqn:Hp.
    + split; [intros _ | reflexivity].
      apply prefix_app in Hp as [after Hp]. by exists "", after.
    + split; [discriminate | intros ([|b before] & after & H)].
      * simpl in H. assert (String.prefix t "" = true) as Ht
          by (apply prefix_app; by exists after).
        congruence.
      * discriminate.
  - destruct (String.prefix t (String c s)) eqn:Hp.
    + split; [intros _ | reflexivity].
      apply prefix_app in Hp as [after Hp]. by exists "", after.
    + rewrite IH. split.
      * intros (before & after & ->). by exists (String c before), after.
      * intros ([|b before] & after & H).
        -- simpl in H. assert (String.prefix t (String c s) = true) as Ht
             by (apply prefix_app; by exists after).
           congruence.
        -- invert H. by exists before, after.
Qed.

Lemma includes_false s t : includes s t = false <-> ~ Substring t s.
Proof.
  rewrite <- includes_Substring. destruct (includes s t); split; congruence.
Qed.

(** ** Body-encoding detector (C6) *)

Example encoding_json_charset :
  getBodyEncoding (content_type_request "application/json; charset=utf-8") = enc_json.
Proof. reflexivity. Qed.

Example encoding_form_boundary :
  getBodyEncoding (content_type_request "multipart/form-data; boundary=xyz") = enc_form.
Proof. reflexivity. Qed.

Example encoding_text_plain :
  getBodyEncoding (content_type_request "text/plain") = enc_text.
Proof. reflexivity. Qed.

Example encoding_urlencoded_is_text :
  getBodyEncoding (content_type_request "application/x-www-form-urlencoded") = enc_text.
Proof. reflexivity. Qed.

Example encoding_absent_is_text :
  getBodyEncoding request_without_content_type = enc_text.
Proof. reflexivity. Qed.

Lemma content_type_request_get s :
  Headers_get (request_headers (content_type_request s)) "content-type" = Some s.
Proof. reflexivity. Qed.

(** C6.  The detector reads the content-type header.  Without a header the
    body is [text].  With a header [s]: [json] when ["application/json"]
    occurs in [s]; otherwise [form] when ["multipart/form-data"] occurs in
    [s]; otherwise [text].  The test is substring containment, so
    whatever surrounds the media type, such as a charset parameter, does
    not change the class. *)
Theorem getBodyEncoding_classifies :
  (forall request,
     match Headers_get (request_headers request) "content-type" with
     | None => getBodyEncoding request = enc_text
     | Some s =>
         (Substring "application/json" s -> getBodyEncoding request = enc_json) /\
         (~ Substring "application/json" s -> Substring "multipart/form-data" s ->
            getBodyEncoding request = enc_form) /\
         (~ Substring "application/json" s -> ~ Substring "multipart/form-data" s ->
            getBodyEncoding request = enc_text)
     end) /\
  (forall before after,
     getBodyEncoding (content_type_request (before +:+ "application/json" +:+ after))
       = enc_json) /\
  (forall before after,
     ~ Substring "application/json" (before +:+ "multipart/form-data" +:+ after) ->
     getBodyEncoding (content_type_request (before +:+ "multipart/form-data" +:+ after))
       = enc_form).
Proof.
  assert (forall request,
     match Headers_get (request_headers request) "content-type" with
     | None => getBodyEncoding request = enc_text
     | Some s =>
         (Substring "application/json" s -> getBodyEncoding request = enc_json) /\
         (~ Substring "application/json" s -> Substring "multipart/form-data" s ->
            getBodyEncoding request = enc_form) /\
         (~ Substring "application/json" s -> ~ Substring "multipart/form-data" s ->
            getBodyEncoding request = enc_text)
     end) as Hmain.
  { intros request. unfold getBodyEncoding.
    destruct (Headers_get (request_headers request) "content-type") as [s|]; [|done].
    cbn [optional_includes]. repeat split.
    - intros H. apply includes_Substring in H. by rewrite H.
    - intros Hj Hf. apply includes_false in Hj. apply includes_Substring in Hf.
      by rewrite Hj, Hf.
    - intros Hj Hf. apply includes_false in Hj, Hf. by rewrite Hj, Hf. }
  split; [exact Hmain|]. split.
  - intros before after.
    pose proof (Hmain (content_type_request (before +:+ "application/json" +:+ after))) as H.
    rewrite content_type_request_get in H. apply H. by exists before, after.
  - intros before after Hj.
    pose proof (Hmain (content_type_request (before +:+ "multipart/form-data" +:+ after))) as H.
    rewrite content_type_request_get in H. apply H; [done|]. by exists before, after.
Qed.

Lemma getBodyEncoding_classifies_witness :
  getBodyEncoding (content_type_request "multipart/form-data; boundary=xyz") = enc_form /\
  getBodyEncoding (content_type_request "text/plain") = enc_text.
Proof.
  pose proof (proj1 getBodyEncoding_classifies
                (content_type_request "multipart/form-data; boundary=xyz")) as Hform.
  pose proof (proj1 getBodyEncoding_classifies (content_type_request "text/plain")) as Htext.
  rewrite content_type_request_get in Hform, Htext.
  destruct Hform as (_ & Hform & _). destruct Htext as (_ & _ & Htext).
  split.
  - apply Hform.
    + apply includes_false. reflexivity.
    + apply includes_Substring. reflexivity.
  - apply Htext; apply includes_false; reflexivity.
Defined.

(** ** Byte-size converter (C7) *)

Lemma unit_exponent_enumerated unit :
  enumerated_unit unit <-> is_Some (unit_exponent unit).
Proof.
  unfold enumerated_unit, unit_exponent. cbn [List.find fst snd In].
  repeat match goal with
  | |- context [String.eqb unit ?u] => destruct (String.eqb_spec unit u) as [->|?]
  end; cbn; split; intros H; eauto 7; try (by destruct H as [? [=]]).
  intuition congruence.
Qed.

Lemma convertToBytes_power value unit k :
  unit_exponent unit = Some k ->
  exists bytes, convertToBytes (mkFileSize value unit) = Return bytes /\
                (bytes == value * 1024 ^ k)%Q.
Proof.
  unfold unit_exponent, convertToBytes. cbn [List.find fst snd size_value size_unit].
  repeat match goal with
  | |- context [String.eqb unit ?u] => destruct (String.eqb_spec unit u) as [->|?]
  end; cbn -[Qmult Qpower Qeq]; intros [= <-]; eexists; (split; [reflexivity|]);
    match goal with
    | |- context [Qpower ?a ?b] =>
        let r := eval vm_compute in (Qpower a b) in change (Qpower a b) with r
    end; ring.
Qed.

Lemma convertToBytes_invalid value unit :
  ~ enumerated_unit unit ->
  convertToBytes (mkFileSize value unit) = Throw InvalidUnit.
Proof.
  unfold enumerated_unit, convertToBytes. cbn [In size_value size_unit]. intros H.
  repeat match goal with
  | |- context [String.eqb unit ?u] => destruct (String.eqb_spec unit u) as [->|?]
  end; try reflexivity; exfalso; apply H; auto 7.
Qed.

Lemma convertToBytes_monotone v1 v2 unit b1 b2 :
  (v1 <= v2)%Q ->
  convertToBytes (mkFileSize v1 unit) = Return b1 ->
  convertToBytes (mkFileSize v2 unit) = Return b2 ->
  (b1 <= b2)%Q.
Proof.
  unfold convertToBytes. cbn [size_value size_unit]. intros Hle.
  repeat match goal with
  | |- context [String.eqb unit ?u] => destruct (String.eqb_spec unit u) as [->|?]
  end; intros [= <-] [= <-]; try assumption;
    repeat (apply Qmult_le_compat_r; [|done]); assumption.
Qed.

(** C7.  On the five enumerated units the converter returns
    [value * 1024^k], k = 0..4; it is monotone in the value; each unit is
    1024 times the one below it; any other unit tag throws the
    invalid-unit error.  (Stated for every value, so in particular for the
    non-negative ones.) *)
Theorem convertToBytes_spec (value : Q) :
  (forall unit k, unit_exponent unit = Some k ->
     exists bytes, convertToBytes (mkFileSize value unit) = Return bytes /\
                   (bytes == value * 1024 ^ k)%Q) /\
  unit_exponent "B" = Some 0%Z /\ unit_exponent "KB" = Some 1%Z /\
  unit_exponent "MB" = Some 2%Z /\ unit_exponent "GB" = Some 3%Z /\
  unit_exponent "TB" = Some 4%Z /\
  (forall value' unit b b', (value <= value')%Q ->
     convertToBytes (mkFileSize value unit) = Return b ->
     convertToBytes (mkFileSize value' unit) = Return b' ->
     (b <= b')%Q) /\
  (exists b kb mb gb tb,
     convertToBytes (mkFileSize value "B") = Return b /\
     convertToBytes (mkFileSize value "KB") = Return kb /\
     convertToBytes (mkFileSize value "MB") = Return mb /\
     convertToBytes (mkFileSize value "GB") = Return gb /\
     convertToBytes (mkFileSize value "TB") = Return tb /\
     (kb == 1024 * b)%Q /\ (mb == 1024 * kb)%Q /\
     (gb == 1024 * mb)%Q /\ (tb == 1024 * gb)%Q) /\
  (forall unit, ~ enumerated_unit unit ->
     convertToBytes (mkFileSize value unit) = Throw InvalidUnit).
Proof.
  split; [intros unit k; apply convertToBytes_power|].
  do 5 (split; [reflexivity|]).
  split; [intros value' unit b b'; apply convertToBytes_monotone|].
  split; [|intros unit; apply convertToBytes_invalid].
  exists value, (value * 1024)%Q, (value * 1024 * 1024)%Q,
    (value * 1024 * 1024 * 1024)%Q, (value * 1024 * 1024 * 1024 * 1024)%Q.
  do 5 (split; [reflexivity|]).
  split; [ring | split; [ring | split; ring]].
Qed.

Lemma convertToBytes_spec_witness :
  convertToBytes (mkFileSize 3 "kilobytes") = Throw InvalidUnit /\
  exists bytes, convertToBytes (mkFileSize 3 "MB") = Return bytes /\
                (bytes == 3 * 1024 ^ 2)%Q.
Proof.
  destruct (convertToBytes_spec 3) as (Hpow & _ & _ & _ & _ & _ & _ & _ & Hbad).
  split.
  - apply Hbad. unfold enumerated_unit. cbn [In].
    intros H. repeat (destruct H as [H|H]; [discriminate H|]). exact H.
  - apply (Hpow "MB" 2%Z). reflexivity.
Defined.

(** ** Schema-wrapped cookie (C2) *)

Lemma truthy_nonempty s : s <> "" -> truthy (Some s) = true.
Proof. by destruct s. Qed.

Lemma truthy_ToString header : truthy header = true -> ToString header <> "".
Proof. by destruct header as [[|c s]|]. Qed.

(** A value that is not a promise fulfils the promise it resolves. *)
Lemma resolve_value v : (forall settled, v <> VPromise settled) -> resolve v = Resolved v.
Proof. intros Hv. destruct v; try reflexivity. by destruct (Hv settled). Qed.

(** [Object.assign] replaces the [parse] of any cookie object. *)
Lemma createZodCookie_parse_property cookie schema :
  createZodCookie cookie schema !! "parse" = Some (InstalledParse schema).
Proof.
  unfold createZodCookie, Object_assign.
  apply lookup_union_Some_l, lookup_singleton_eq.
Qed.

Lemma zodCookie_parse_installed depth cookie schema cookieHeader :
  zodCookie_parse depth cookie schema cookieHeader
    = zod_parse depth (createZodCookie cookie schema) schema cookieHeader.
Proof. reflexivity. Qed.

(** Without a cookie header the empty mapping is validated. *)
Lemma zodCookie_parse_missing depth cookie schema :
  zodCookie_parse (S depth) cookie schema HeaderNull
    = Some (awaited (parseAsync schema empty_mapping)) /\
  zodCookie_parse (S depth) cookie schema (HeaderString "")
    = Some (awaited (parseAsync schema empty_mapping)) /\
  (forall headers, Headers_get headers "cookie" = None ->
     zodCookie_parse (S depth) cookie schema (HeaderHeaders headers)
       = Some (awaited (parseAsync schema empty_mapping))) /\
  (forall request, Headers_get (request_headers request) "cookie" = None ->
     zodCookie_parse (S depth) cookie schema (HeaderRequest request)
       = Some (awaited (parseAsync schema empty_mapping))).
Proof.
  rewrite !zodCookie_parse_installed. split; [done|]. split; [done|]. split.
  - intros headers H. rewrite zodCookie_parse_installed. cbn [zod_parse]. by rewrite H.
  - intros request H. rewrite zodCookie_parse_installed. cbn [zod_parse]. by rewrite H.
Qed.

(** The same for every argument that carries no header, or an empty one. *)
Lemma zod_parse_without_header depth cookie schema cookieHeader :
  truthy (cookie_header_of cookieHeader) = false ->
  zod_parse (S depth) cookie schema cookieHeader
    = Some (awaited (parseAsync schema empty_mapping)).
Proof.
  intros Ht.
  destruct cookieHeader as [s| |request|headers]; cbn [zod_parse cookie_header_of] in *;
    by rewrite ?Ht.
Qed.

(** What the claim describes is what the installed [parse] does on a
    cookie object whose [parse] property still holds the codec's method:
    the schema is run on what the codec returns. *)
Lemma zod_parse_with_codec depth name decode encode schema s :
  s <> "" ->
  zod_parse (S depth) (codec_cookie name decode encode) schema (HeaderString s)
    = Some (awaited (parseAsync schema (decode s))).
Proof.
  intros Hs. cbn [zod_parse]. rewrite (truthy_nonempty s Hs). cbn [negb].
  by replace (codec_cookie name decode encode !! "parse") with (Some (CodecMethod decode)).
Qed.

(** A [Headers] object or a [Request] that carries a cookie header is
    treated as the header string itself. *)
Lemma zod_parse_header depth cookie schema cookieHeader :
  truthy (cookie_header_of cookieHeader) = true ->
  zod_parse depth cookie schema cookieHeader
    = zod_parse depth cookie schema (HeaderString (ToString (cookie_header_of cookieHeader))).
Proof.
  intros Ht. destruct depth as [|depth]; [done|].
  assert (truthy (Some (ToString (cookie_header_of cookieHeader))) = true) as Hs
    by (apply truthy_nonempty; by apply truthy_ToString).
  destruct cookieHeader as [s| |request|headers]; cbn [cookie_header_of] in *.
  - done.
  - done.
  - cbn [zod_parse]. by rewrite Ht, Hs.
  - cbn [zod_parse]. by rewrite Ht, Hs.
Qed.

(** The installed [parse] reads nothing of the cookie object but its
    [parse] property. *)
Lemma zod_parse_reads_parse depth (cookie cookie' : gmap string Property) schema cookieHeader :
  cookie !! "parse" = cookie' !! "parse" ->
  zod_parse depth cookie schema cookieHeader = zod_parse depth cookie' schema cookieHeader.
Proof.
  intros Hsame. revert schema cookieHeader.
  induction depth as [|depth IH]; intros schema cookieHeader; [done|].
  cbn [zod_parse]. rewrite <- Hsame.
  destruct (cookie !! "parse") as [[f|schema'|v]|]; try done.
  destruct cookieHeader as [s| |request|headers]; by rewrite ?IH.
Qed.

(** On an object whose [parse] property holds the installed method, the
    call for a non-empty header string makes the same call again, with
    the schema the method was installed with.  When that call no longer
    fits on the stack, the promise is rejected with the engine's error;
    otherwise the schema is run on the promise that the nested call
    returned. *)
Lemma zod_parse_installed_call depth (cookie : gmap string Property) schema schema' s :
  cookie !! "parse" = Some (InstalledParse schema') ->
  s <> "" ->
  zod_parse (S depth) cookie schema (HeaderString s) =
    Some match zod_parse depth cookie schema' (HeaderString s) with
         | Some nested => awaited (parseAsync schema (VPromise nested))
         | None => Rejected RangeError
         end.
Proof.
  intros Hparse Hs. cbn [zod_parse]. rewrite (truthy_nonempty s Hs), Hparse. cbn [negb].
  by destruct (zod_parse depth cookie schema' (HeaderString s)).
Qed.

(** With room for one frame, the installed [parse] returns a promise. *)
Lemma zod_parse_returns depth cookie schema cookieHeader :
  exists promise, zod_parse (S depth) cookie schema cookieHeader = Some promise.
Proof.
  destruct cookieHeader as [s| |request|headers]; cbn [zod_parse];
    repeat match goal with |- context [if ?b then _ else _] => destruct b end; eauto.
Qed.

(** A schema that passes every promise on as it is: the rejection of the
    innermost call travels up through every frame. *)
Lemma zod_parse_accepting depth (cookie : gmap string Property) schema s :
  cookie !! "parse" = Some (InstalledParse schema) ->
  s <> "" ->
  (forall settled, schema (VPromise settled) = Valid (VPromise settled)) ->
  zod_parse (S depth) cookie schema (HeaderString s) = Some (Rejected RangeError).
Proof.
  intros Hparse Hs Hvalid.
  induction depth as [|depth IH]; rewrite (zod_parse_installed_call _ _ _ _ _ Hparse Hs).
  - done.
  - rewrite IH. unfold parseAsync. by rewrite Hvalid.
Qed.

(** A schema that reports the same issue on every promise: above the
    innermost frame, the call rejects with that issue. *)
Lemma zod_parse_rejecting depth (cookie : gmap string Property) schema s error :
  cookie !! "parse" = Some (InstalledParse schema) ->
  s <> "" ->
  (forall settled, schema (VPromise settled) = Invalid error) ->
  zod_parse (S (S depth)) cookie schema (HeaderString s) = Some (Rejected error).
Proof.
  intros Hparse Hs Hinvalid.
  rewrite (zod_parse_installed_call _ _ _ _ _ Hparse Hs).
  destruct (zod_parse_returns depth cookie schema (HeaderString s)) as [nested ->].
  unfold parseAsync. by rewrite Hinvalid.
Qed.

(** C2, at the failing input.  For the header ["a=b"], given as a string,
    in a [Headers] object or in a [Request], and for any cookie object:
    [Object.assign] has replaced the cookie's own [parse] before it can be
    called, so the wrapped [parse] calls itself.  The innermost call, the
    one whose own inner call no longer fits on the stack, rejects with the
    engine's [RangeError]; every call above it runs the schema on the
    promise that the nested call returned, not on a decoded header.  The
    codec is never consulted: the outcome is the same for every codec.  So
    a schema that accepts anything yields the [RangeError], and a schema
    for plain objects yields its own issue, also where the codec decodes
    the header to a plain object, which the schema accepts.  On a cookie
    object that still has the codec's [parse], the same method does run
    the schema on the decoded header. *)
Theorem zodCookie_parse_present_header (depth : nat) (name : string)
    (decode encode : string -> JsValue) (schema : ZodType) :
  let cookie := codec_cookie name decode encode in
  let request := mkRequest [("cookie", "a=b")] [] (Resolved VNull) (Resolved []) in
  cookie !! "parse" = Some (CodecMethod decode) /\
  createZodCookie cookie schema !! "parse" = Some (InstalledParse schema) /\
  zodCookie_parse 1 cookie schema (HeaderString "a=b") = Some (Rejected RangeError) /\
  (exists nested,
     zodCookie_parse (S depth) cookie schema (HeaderString "a=b") = Some nested /\
     zodCookie_parse (S (S depth)) cookie schema (HeaderString "a=b")
       = Some (awaited (parseAsync schema (VPromise nested)))) /\
  zodCookie_parse depth cookie schema (HeaderHeaders [("cookie", "a=b")])
    = zodCookie_parse depth cookie schema (HeaderString "a=b") /\
  zodCookie_parse depth cookie schema (HeaderRequest request)
    = zodCookie_parse depth cookie schema (HeaderString "a=b") /\
  (forall name' decode' encode',
     zodCookie_parse depth (codec_cookie name' decode' encode') schema (HeaderString "a=b")
       = zodCookie_parse depth cookie schema (HeaderString "a=b")) /\
  zodCookie_parse (S depth) cookie zod_unknown (HeaderString "a=b")
    = Some (Rejected RangeError) /\
  zodCookie_parse (S (S depth)) cookie plain_object_schema (HeaderString "a=b")
    = Some (Rejected (ZodError "Expected object")) /\
  (forall own proto, decode "a=b" = VObj own proto ->
     parseAsync plain_object_schema (decode "a=b") = Resolved (decode "a=b") /\
     zodCookie_parse (S depth) cookie plain_object_schema (HeaderString "a=b")
       <> Some (awaited (parseAsync plain_object_schema (decode "a=b")))) /\
  zod_parse (S depth) cookie schema (HeaderString "a=b")
    = Some (awaited (parseAsync schema (decode "a=b"))).
Proof.
  intros cookie request.
  assert ("a=b" <> "") as Hs by discriminate.
  assert (forall schema', createZodCookie cookie schema' !! "parse"
                          = Some (InstalledParse schema')) as Hinstalled
    by (intros schema'; apply createZodCookie_parse_property).
  rewrite !zodCookie_parse_installed.
  split; [reflexivity|]. split; [apply Hinstalled|]. split.
  { by rewrite (zod_parse_installed_call _ _ _ _ _ (Hinstalled schema) Hs). }
  split.
  { destruct (zod_parse_returns depth (createZodCookie cookie schema) schema
                (HeaderString "a=b")) as [nested Hnested].
    exists nested. split; [exact Hnested|].
    by rewrite (zod_parse_installed_call _ _ _ _ _ (Hinstalled schema) Hs), Hnested. }
  split; [by rewrite zod_parse_header|]. split; [by rewrite zod_parse_header|]. split.
  { intros name' decode' encode'. rewrite zodCookie_parse_installed.
    apply zod_parse_reads_parse.
    by rewrite Hinstalled, createZodCookie_parse_property. }
  split; [by apply zod_parse_accepting|]. split; [by apply zod_parse_rejecting|]. split.
  - intros own proto Hdecoded.
    unfold parseAsync at 1 2. rewrite Hdecoded. cbn [plain_object_schema awaited resolve].
    split; [reflexivity|].
    destruct depth as [|depth].
    + by rewrite (zod_parse_installed_call _ _ _ _ _ (Hinstalled plain_object_schema) Hs).
    + by rewrite (zod_parse_rejecting _ _ _ _ (ZodError "Expected object")
                    (Hinstalled plain_object_schema) Hs).
  - by apply zod_parse_with_codec.
Qed.

Lemma zodCookie_parse_present_header_witness :
  parseAsync plain_object_schema empty_mapping = Resolved empty_mapping /\
  zodCookie_parse 3 (codec_cookie "session" (fun _ => empty_mapping) VStr)
      plain_object_schema (HeaderString "a=b")
    <> Some (awaited (parseAsync plain_object_schema empty_mapping)).
Proof.
  destruct (zodCookie_parse_present_header 2 "session" (fun _ => empty_mapping) VStr
              plain_object_schema) as (_ & _ & _ & _ & _ & _ & _ & _ & _ & Hclaimed & _).
  exact (Hclaimed ∅ None eq_refl).
Defined.

(** ** The bad-request signal (C8) *)

Lemma parseOrThrow_accepts cfg schema value data :
  accepts schema value data -> parseOrThrow cfg schema value = Resolved data.
Proof. unfold accepts, parseOrThrow, parseAsync. by intros ->. Qed.

Lemma parseOrThrow_rejects cfg schema value :
  rejects schema value -> parseOrThrow cfg schema value = Rejected (BadRequest cfg).
Proof. unfold parseOrThrow, parseAsync. by intros [error ->]. Qed.

Lemma parseOrThrow_threw cfg schema value exn :
  schema value = Threw exn -> parseOrThrow cfg schema value = Rejected (BadRequest cfg).
Proof. unfold parseOrThrow, parseAsync. by intros ->. Qed.

Lemma parseBody_input cfg request schema value :
  body_input request = Some value ->
  parseBody cfg request schema = parseOrThrow cfg schema value.
Proof.
  unfold body_input, parseBody, parseJson, parseForm.
  destruct (getBodyEncoding request); [| |done].
  - destruct (request_json request); [|done]. by intros [= <-].
  - destruct (request_formData request); [|done]. by intros [= <-].
Qed.

Lemma parseQuery_input cfg request schema :
  parseQuery cfg request schema = parseOrThrow cfg schema (query_input request).
Proof. by destruct request. Qed.

(** The claim fails for one throwing parse: the [parse] of the
    schema-wrapped cookie calls [schema.parseAsync] itself, not through
    [parseOrThrow].  Without a cookie header and with a schema that rejects
    the empty mapping, it rejects with the schema's own error, where
    [parseOrThrow] on the same schema and input rejects with the
    bad-request response. *)
Lemma zodCookie_parse_no_bad_request :
  rejects zod_never empty_mapping /\
  zodCookie_parse 1 (codec_cookie "session" VStr VStr) zod_never HeaderNull
    = Some (Rejected (ZodError "Expected never")) /\
  zodCookie_parse 1 (codec_cookie "session" VStr VStr) zod_never HeaderNull
    <> Some (Rejected (VResponse (VStr "Bad Request") 400 "Bad Request")) /\
  parseOrThrow default_config zod_never empty_mapping
    = Rejected (VResponse (VStr "Bad Request") 400 "Bad Request").
Proof.
  split; [by eexists|]. split; [reflexivity|]. split; [|reflexivity].
  intros H. vm_compute in H. discriminate H.
Qed.

(** C8, amended.  When the schema rejects the input, [parseOrThrow], and
    with it every throwing parser built on it (path parameters, JSON,
    form, unified body, query and headers), rejects with a response of
    status 400 whose status text is the configured message and whose body
    is the configured formatter applied to that message; under the initial
    configuration (message ["Bad Request"], identity formatter) that is
    the body ["Bad Request"] with status text ["Bad Request"].  The
    throwing [parse] of the schema-wrapped cookie is the exception: when
    the schema reports an issue on the empty mapping of a missing header,
    it rejects with that issue. *)
Theorem throwing_parse_bad_request (cfg : Config) (schema : ZodType) (value : JsValue) :
  rejects schema value ->
  let signal := VResponse (customBadRequestJson cfg (badRequestMessage cfg)) 400
                          (badRequestMessage cfg) in
  parseOrThrow cfg schema value = Rejected signal /\
  parseParams cfg value schema = Rejected signal /\
  (forall request, request_json request = Resolved value ->
     parseJson cfg request schema = Rejected signal) /\
  (forall request form, request_formData request = Resolved form ->
     object_value (formToObject form) = value ->
     parseForm cfg request schema = Rejected signal) /\
  (forall request, body_input request = Some value ->
     parseBody cfg request schema = Rejected signal) /\
  (forall request, query_input request = value ->
     parseQuery cfg request schema = Rejected signal) /\
  (forall headers, object_value (headersToObject headers) = value ->
     parseHeaders cfg headers schema = Rejected signal) /\
  (cfg = default_config -> signal = VResponse (VStr "Bad Request") 400 "Bad Request") /\
  (forall depth cookie cookieHeader error,
     truthy (cookie_header_of cookieHeader) = false ->
     schema empty_mapping = Invalid error ->
     zodCookie_parse (S depth) cookie schema cookieHeader = Some (Rejected error)).
Proof.
  intros Hrej signal.
  assert (parseOrThrow cfg schema value = Rejected signal) as Hthrow
    by (by apply parseOrThrow_rejects).
  split; [exact Hthrow|]. split; [exact Hthrow|].
  split; [|split; [|split; [|split; [|split; [|split]]]]].
  - intros request Hbody. unfold parseJson. by rewrite Hbody.
  - intros request form Hbody Hdata. unfold parseForm. rewrite Hbody. cbn [bind].
    by rewrite Hdata.
  - intros request Hin. by rewrite (parseBody_input _ _ _ _ Hin).
  - intros request Hin. rewrite parseQuery_input. by rewrite Hin.
  - intros headers Hdata. unfold parseHeaders. by rewrite Hdata.
  - by intros ->.
  - intros depth cookie cookieHeader error Ht Hrun.
    unfold zodCookie_parse. rewrite (zod_parse_without_header _ _ _ _ Ht).
    unfold parseAsync. by rewrite Hrun.
Qed.

Lemma throwing_parse_bad_request_witness :
  parseOrThrow default_config zod_never (VStr "x") =
    Rejected (VResponse (VStr "Bad Request") 400 "Bad Request").
Proof.
  assert (rejects zod_never (VStr "x")) as Hrej by (by eexists).
  exact (proj1 (throwing_parse_bad_request default_config zod_never (VStr "x") Hrej)).
Defined.

(** ** Unified body parsing on an unrecognised content type (C1) *)

(** The claim fails as stated: on a request without content type,
    [parseBodySafe] rejects instead of resolving to a failure-tagged
    result, and [parseBodyWithDefault] rejects instead of resolving to the
    default. *)
Lemma parseBody_text_not_safe :
  getBodyEncoding request_without_content_type = enc_text /\
  ~ (exists error,
       parseBodySafe default_config request_without_content_type zod_unknown
       = Resolved (SafeError error)) /\
  parseBodyWithDefault default_config request_without_content_type zod_unknown (VStr "default")
    <> Resolved (VStr "default").
Proof.
  split; [reflexivity|]. split.
  - intros [error H]. discriminate H.
  - discriminate.
Qed.

(** C1, amended.  On a request whose content type is neither JSON nor
    multipart form data, [parseBodySafe] and [parseBodyWithDefault] do what
    [parseBody] does: they reject with the bad-request response; no tagged
    result is produced and the default is not used. *)
Theorem parseBody_text_rejects (cfg : Config) (request : Request) (schema : ZodType)
    (defaultValue : JsValue) :
  getBodyEncoding request = enc_text ->
  parseBodySafe cfg request schema = Rejected (BadRequest cfg) /\
  parseBodyWithDefault cfg request schema defaultValue = Rejected (BadRequest cfg) /\
  parseBody cfg request schema = Rejected (BadRequest cfg).
Proof.
  intros Henc. unfold parseBodySafe, parseBodyWithDefault, parseBody.
  by rewrite Henc.
Qed.

Lemma parseBody_text_rejects_witness :
  parseBodySafe default_config request_without_content_type zod_unknown
    = Rejected (BadRequest default_config) /\
  parseBodyWithDefault default_config request_without_content_type zod_unknown (VStr "default")
    = Rejected (BadRequest default_config) /\
  parseBody default_config request_without_content_type zod_unknown
    = Rejected (BadRequest default_config).
Proof.
  apply (parseBody_text_rejects default_config request_without_content_type
           zod_unknown (VStr "default")).
  reflexivity.
Defined.

(** ** Query parameters: the input of the schema *)

(** The three query parsers hand [query_input] to the schema. *)
Lemma parseQuerySafe_input request schema :
  parseQuerySafe request schema = safeParseAsync schema (query_input request).
Proof. by destruct request. Qed.

Lemma parseQueryWithDefault_input request schema defaultValue :
  parseQueryWithDefault request schema defaultValue =
    let! result := safeParseAsync schema (query_input request) in
    Resolved (orDefault defaultValue result).
Proof. by destruct request. Qed.

(** ** Action binder (C4) *)

Lemma parseOrThrow_cases cfg schema value :
  (exists data, parseOrThrow cfg schema value = Resolved data) \/
  parseOrThrow cfg schema value = Rejected (BadRequest cfg).
Proof.
  unfold parseOrThrow, parseAsync. destruct (schema value); eauto.
Qed.

(** The claim fails as stated: the body schema [zod.unknown()] accepts
    every value, hence the body of any request, yet on a request without
    content type, or with a url-encoded form, the handler is not invoked
    and the bad request is raised (the first is the case of
    [test/error.test.ts]). *)
Lemma zodAction_accepting_schema_not_invoked :
  (forall value, accepts zod_unknown value value) /\
  zodAction default_config None (Some zod_unknown) echo_handler bare_args
    = mkInvocation [] (Rejected (BadRequest default_config)) /\
  zodAction default_config None (Some zod_unknown) echo_handler urlencoded_args
    = mkInvocation [] (Rejected (BadRequest default_config)).
Proof. split; [done | split; reflexivity]. Qed.

(** C4, amended.  For an action bound by [zodAction]:
    - when the content type selects JSON or form data, the body can be
      read, the params schema accepts the path parameters and the body
      schema accepts the body, the handler is invoked exactly once, with
      the original arguments extended by [parsedParams] and [parsedBody],
      and its promise is returned;
    - when the body schema rejects the body, the bad request is raised
      and the handler is not invoked;
    - when the content type selects neither, the bad request is raised
      and the handler is not invoked. *)
Theorem zodAction_spec (cfg : Config) (params body : option ZodType)
    (action : ZodActionFunctionArgs -> Promise JsValue) (args : ActionFunctionArgs) :
  (forall value pp pb,
     body_input (args_request args) = Some value ->
     accepts (schema_or_unknown params) (args_params args) pp ->
     accepts (schema_or_unknown body) value pb ->
     zodAction cfg params body action args
       = mkInvocation [mkActionArgs args pp pb] (action (mkActionArgs args pp pb))) /\
  (forall value,
     body_input (args_request args) = Some value ->
     rejects (schema_or_unknown body) value ->
     zodAction cfg params body action args
       = mkInvocation [] (Rejected (BadRequest cfg))) /\
  (getBodyEncoding (args_request args) = enc_text ->
     zodAction cfg params body action args
       = mkInvocation [] (Rejected (BadRequest cfg))).
Proof.
  unfold zodAction, parseParams. repeat split.
  - intros value pp pb Hin Hp Hb.
    rewrite (parseOrThrow_accepts _ _ _ _ Hp), (parseBody_input _ _ _ _ Hin).
    by rewrite (parseOrThrow_accepts _ _ _ _ Hb).
  - intros value Hin Hb.
    destruct (parseOrThrow_cases cfg (schema_or_unknown params) (args_params args))
      as [[pp ->]| ->]; [|done].
    rewrite (parseBody_input _ _ _ _ Hin). by rewrite (parseOrThrow_rejects _ _ _ Hb).
  - intros Henc.
    destruct (parseOrThrow_cases cfg (schema_or_unknown params) (args_params args))
      as [[pp ->]| ->]; [|done].
    unfold parseBody. by rewrite Henc.
Qed.

Lemma zodAction_spec_witness :
  let args := mkArgs (json_request name_a) (VObj ∅ None) VNull in
  let args' := mkArgs (json_request name_5) (VObj ∅ None) VNull in
  zodAction default_config None (Some name_schema) echo_handler args
    = mkInvocation [mkActionArgs args (VObj ∅ None) name_a] (Resolved name_a) /\
  zodAction default_config None (Some name_schema) echo_handler args'
    = mkInvocation [] (Rejected (BadRequest default_config)) /\
  zodAction default_config None (Some name_schema) echo_handler bare_args
    = mkInvocation [] (Rejected (BadRequest default_config)).
Proof.
  intros args args'.
  split; [|split].
  - apply (proj1 (zodAction_spec default_config None (Some name_schema) echo_handler args)
             name_a (VObj ∅ None) name_a); reflexivity.
  - apply (proj1 (proj2 (zodAction_spec default_config None (Some name_schema)
                           echo_handler args')) name_5); [reflexivity|].
    eexists. reflexivity.
  - apply (proj2 (proj2 (zodAction_spec default_config None (Some name_schema)
                           echo_handler bare_args))). reflexivity.
Defined.

(** ** File schema (C9) *)

Lemma mem_In key keys : mem key keys = true <-> In key keys.
Proof.
  unfold mem. rewrite existsb_exists. split.
  - intros (x & Hin & Heq). apply String.eqb_eq in Heq. by subst.
  - intros Hin. exists key. split; [done | apply String.eqb_refl].
Qed.

Lemma convertToBytes_enumerated fs :
  enumerated_unit (size_unit fs) -> exists bytes, convertToBytes fs = Return bytes.
Proof.
  destruct fs as [value unit]. cbn [size_unit]. intros H.
  apply unit_exponent_enumerated in H as [k Hk].
  destruct (convertToBytes_power value unit k Hk) as (bytes & Hb & _). eauto.
Qed.

Lemma Qltb_false a b : Qltb a b = false <-> (b <= a)%Q.
Proof.
  unfold Qltb. rewrite negb_false_iff. apply Qle_bool_iff.
Qed.

Lemma Qltb_true a b : Qltb a b = true <-> ~ (b <= a)%Q.
Proof.
  rewrite <- Qltb_false. destruct (Qltb a b); split; congruence.
Qed.

(** The size part of the predicate: without a thrown unit error, it
    decides the two inclusive bounds. *)
Lemma file_check_sizes opts f :
  well_formed_size (minimumSize opts) -> well_formed_size (maximumSize opts) ->
  mimetype_given (mimetype opts) = None ->
  exists b, file_check opts (VFile f) = Return b /\
            (b = true <-> at_least (minimumSize opts) (file_size f) /\
                          at_most (maximumSize opts) (file_size f)).
Proof.
  destruct opts as [lo hi m]. cbn [minimumSize maximumSize mimetype file_check].
  intros Hlo Hhi ->.
  destruct lo as [lo|]; cbn [well_formed_size at_least] in *.
  - destruct (convertToBytes_enumerated lo Hlo) as [lb Hlb]. rewrite Hlb. cbn [bind].
    destruct (Qltb (inject_Z (file_size f)) lb) eqn:Hbelow.
    + eexists; split; [reflexivity|]. split; [done|].
      intros [(bytes & [= <-] & Hle) _]. apply Qltb_true in Hbelow. done.
    + apply Qltb_false in Hbelow.
      destruct hi as [hi|]; cbn [well_formed_size at_most] in *.
      * destruct (convertToBytes_enumerated hi Hhi) as [hb Hhb]. rewrite Hhb. cbn [bind].
        destruct (Qltb hb (inject_Z (file_size f))) eqn:Habove.
        -- eexists; split; [reflexivity|]. split; [done|].
           intros [_ (bytes & [= <-] & Hle)]. apply Qltb_true in Habove. done.
        -- apply Qltb_false in Habove. eexists; split; [reflexivity|]. split; [|done].
           intros _. split; eauto.
      * eexists; split; [reflexivity|]. split; [|done]. intros _. split; eauto.
  - cbn [bind].
    destruct hi as [hi|]; cbn [well_formed_size at_most] in *.
    + destruct (convertToBytes_enumerated hi Hhi) as [hb Hhb]. rewrite Hhb. cbn [bind].
      destruct (Qltb hb (inject_Z (file_size f))) eqn:Habove.
      * eexists; split; [reflexivity|]. split; [done|].
        intros [_ (bytes & [= <-] & Hle)]. apply Qltb_true in Habove. done.
      * apply Qltb_false in Habove. eexists; split; [reflexivity|]. split; [|done].
        intros _. split; eauto.
    + eexists; split; [reflexivity|]. split; done.
Qed.

Lemma file_check_mimetype opts f :
  file_check opts (VFile f) =
    match mimetype_given (mimetype opts) with
    | Some (MimeArray l) =>
        if mem (file_type f) l then file_check (without_mimetype opts) (VFile f)
        else Return false
    | Some (MimeString s) =>
        if String.eqb (file_type f) s then file_check (without_mimetype opts) (VFile f)
        else Return false
    | None => file_check (without_mimetype opts) (VFile f)
    end.
Proof.
  destruct opts as [lo hi m]. cbn [file_check mimetype without_mimetype minimumSize maximumSize].
  destruct (mimetype_given m) as [[s|l]|]; cbn [mimetype_given]; [| |done].
  - by destruct (String.eqb (file_type f) s).
  - by destruct (mem (file_type f) l).
Qed.

Lemma file_check_decides opts f :
  well_formed_size (minimumSize opts) -> well_formed_size (maximumSize opts) ->
  exists b, file_check opts (VFile f) = Return b /\
            (b = true <-> mime_allows (mimetype opts) (file_type f) /\
                          at_least (minimumSize opts) (file_size f) /\
                          at_most (maximumSize opts) (file_size f)).
Proof.
  intros Hlo Hhi.
  destruct (file_check_sizes (without_mimetype opts) f Hlo Hhi eq_refl) as (b & Hb & Hiff).
  cbn [without_mimetype minimumSize maximumSize] in Hiff.
  rewrite file_check_mimetype.
  destruct (mimetype opts) as [[s|l]|] eqn:Hmime.
  - destruct s as [|c s]; cbn [mimetype_given mime_allows].
    + exists b. split; [done|]. rewrite Hiff. tauto.
    + destruct (String.eqb_spec (file_type f) (String c s)) as [Heq|Hne].
      * exists b. split; [done|]. rewrite Hiff. tauto.
      * exists false. split; [done|]. split; [done | tauto].
  - cbn [mimetype_given mime_allows]. destruct (mem (file_type f) l) eqn:Hmem.
    + apply mem_In in Hmem. exists b. split; [done|]. rewrite Hiff. tauto.
    + exists false. split; [done|]. split; [done|].
      intros [Hin _]. apply mem_In in Hin. congruence.
  - cbn [mimetype_given mime_allows]. exists b. split; [done|]. rewrite Hiff. tauto.
Qed.

(** An empty constraint string is falsy, so it constrains nothing. *)
Remark zx_file_empty_mimetype f :
  zx_file (mkFileOptions None None (Some (MimeString ""))) (VFile f) = Valid (VFile f).
Proof. reflexivity. Qed.

(** The claim fails for a constraint that is given as the empty string:
    the type ["image/png"] is not equal to it, and the file is accepted;
    also next to a size bound that the file meets. *)
Lemma zx_file_empty_constraint_accepts :
  let png := mkFile "a.png" "image/png" 10 in
  let constraint := Some (MimeString "") in
  ~ mime_matches constraint (file_type png) /\
  zx_file (mkFileOptions None None constraint) (VFile png) = Valid (VFile png) /\
  zx_file (mkFileOptions None (Some (mkFileSize 1 "MB")) constraint) (VFile png)
    = Valid (VFile png).
Proof.
  cbv zeta. split; [discriminate|]. split; reflexivity.
Qed.

(** C9, amended.  For options whose size units are among the enumerated
    ones: [zx.file] accepts a file exactly when its type equals the
    constraint string, if that is not empty, or is a member of the
    constraint list, and its size lies between the minimum and the maximum
    in bytes, both bounds included; an absent constraint is no condition,
    and neither is an empty constraint string.  For every other constraint
    the MIME clause is the one of the claim.  In particular, without
    options every file is accepted, and with a maximum of 1 MB a file of
    1048576 bytes is accepted and one of 1048577 bytes is rejected.  A
    value that is not a file is rejected. *)
Theorem zx_file_spec :
  (forall opts f,
     well_formed_size (minimumSize opts) -> well_formed_size (maximumSize opts) ->
     (zx_file opts (VFile f) = Valid (VFile f) <->
        mime_allows (mimetype opts) (file_type f) /\
        at_least (minimumSize opts) (file_size f) /\
        at_most (maximumSize opts) (file_size f)) /\
     (zx_file opts (VFile f) = Valid (VFile f) \/
      zx_file opts (VFile f) = Invalid (ZodError "Invalid input"))) /\
  (forall constraint type,
     constraint <> Some (MimeString "") ->
     (mime_allows constraint type <-> mime_matches constraint type)) /\
  (forall type, mime_allows (Some (MimeString "")) type) /\
  (forall f, zx_file no_options (VFile f) = Valid (VFile f)) /\
  (forall name type,
     zx_file one_megabyte (VFile (mkFile name type 1048576)) =
       Valid (VFile (mkFile name type 1048576)) /\
     zx_file one_megabyte (VFile (mkFile name type 1048577)) =
       Invalid (ZodError "Invalid input")) /\
  (forall opts val, (forall f, val <> VFile f) ->
     zx_file opts val = Invalid (ZodError "Invalid input")).
Proof.
  split; [|split; [|split; [|split; [|split]]]].
  - intros opts f Hlo Hhi.
    destruct (file_check_decides opts f Hlo Hhi) as (b & Hb & Hiff).
    unfold zx_file, zod_custom. rewrite Hb. rewrite <- Hiff.
    destruct b; split; try (split; congruence); eauto.
  - intros [[[|c s]|l]|] type Hm; cbn [mime_allows mime_matches]; tauto.
  - intros type. exact I.
  - reflexivity.
  - intros name type. split; reflexivity.
  - intros opts val Hval. unfold zx_file, zod_custom.
    destruct val; try reflexivity. by destruct (Hval f).
Qed.

Lemma zx_file_spec_witness :
  zx_file (mkFileOptions (Some (mkFileSize 1 "KB")) (Some (mkFileSize 1 "MB"))
             (Some (MimeArray ["image/png"; "image/jpeg"])))
          (VFile (mkFile "a.png" "image/png" 1024))
  = Valid (VFile (mkFile "a.png" "image/png" 1024)).
Proof.
  apply (proj1 zx_file_spec
           (mkFileOptions (Some (mkFileSize 1 "KB")) (Some (mkFileSize 1 "MB"))
              (Some (MimeArray ["image/png"; "image/jpeg"])))
           (mkFile "a.png" "image/png" 1024)).
  - cbn. unfold enumerated_unit. cbn. tauto.
  - cbn. unfold enumerated_unit. cbn. tauto.
  - cbn [mimetype minimumSize maximumSize file_type file_size mime_allows at_least at_most].
    split; [cbn; tauto|]. split.
    + eexists. split; [reflexivity|]. unfold Qle. cbn. lia.
    + eexists. split; [reflexivity|]. unfold Qle. cbn. lia.
Defined.

(** ** Base64 file schema on malformed payloads (C3) *)

Example base64File_data_uri :
  zx_base64File no_options (VStr "data:text/plain;base64,aGVsbG8=")
  = Valid (VFile (mkFile "file.plain" "text/plain" 5)).
Proof. reflexivity. Qed.

(** A thrown preprocessor is caught by [parseOrThrow] only: the safe and
    the with-default shapes reject with what was thrown. *)
Lemma base64File_preprocess_throw opts val exn cfg defaultValue :
  base64File_preprocess val = Throw exn ->
  zx_base64File opts val = Threw exn /\
  parseOrThrow cfg (zx_base64File opts) val = Rejected (BadRequest cfg) /\
  safeParseAsync (zx_base64File opts) val = Rejected exn /\
  parseParamsWithDefault val (zx_base64File opts) defaultValue = Rejected exn.
Proof.
  intros Hthrow.
  assert (zx_base64File opts val = Threw exn) as Hrun
    by (unfold zx_base64File, zod_preprocess; by rewrite Hthrow).
  unfold parseParamsWithDefault, parseOrThrow, parseAsync, safeParseAsync.
  by rewrite Hrun.
Qed.

(** C3, at the failing input.  The string ["not base64!!"] has no comma,
    so [atob] is applied to [undefined] and throws inside the
    preprocessor.  The throwing shape turns this into the bad request, but
    the safe shape rejects with the decoder's exception instead of
    resolving to a failure-tagged result, and the with-default shape
    rejects instead of resolving to the default. *)
Theorem base64File_malformed_payload :
  let payload := VStr "not base64!!" in
  let schema := zx_base64File no_options in
  base64File_preprocess payload = Throw InvalidCharacterError /\
  parseJson default_config (json_request payload) schema
    = Rejected (BadRequest default_config) /\
  parseJsonSafe (json_request payload) schema = Rejected InvalidCharacterError /\
  parseJsonWithDefault (json_request payload) schema (VStr "default")
    = Rejected InvalidCharacterError /\
  (forall error, parseJsonSafe (json_request payload) schema <> Resolved (SafeError error)) /\
  parseJsonWithDefault (json_request payload) schema (VStr "default")
    <> Resolved (VStr "default").
Proof.
  cbv zeta. repeat split; try reflexivity; discriminate.
Qed.

(** Other strings that are not data URIs: plain base64 without a header
    throws as well, a payload without the [data:] scheme is accepted, and
    so is the string [":,"], as an empty file. *)
Example base64File_plain_base64 :
  zx_base64File no_options (VStr "aGVsbG8=") = Threw InvalidCharacterError.
Proof. reflexivity. Qed.

Example base64File_no_colon :
  zx_base64File no_options (VStr "text/plain;base64,aGVsbG8=")
  = Threw (VError "TypeError" "Cannot read properties of undefined (reading 'split')").
Proof. reflexivity. Qed.

Example base64File_colon_comma :
  zx_base64File no_options (VStr ":,") = Valid (VFile (mkFile "file.undefined" "" 0)).
Proof. reflexivity. Qed.

(** ** Multi-value fold (C5) *)

Example fold_example :
  searchParamsToObject [("a", "1"); ("b", "2"); ("a", "3")]
  = mkObj (<["a" := VArr [VStr "1"; VStr "3"]]> (<["b" := VStr "2"]> ∅)) None.
Proof. vm_compute. reflexivity. Qed.

Lemma values_of_app key pairs pairs' :
  values_of key (pairs ++ pairs') = (values_of key pairs ++ values_of key pairs')%list.
Proof.
  induction pairs as [|[k v] pairs IH]; [done|].
  cbn [values_of app]. destruct (String.eqb k key); [|done].
  by rewrite IH.
Qed.

Lemma values_of_scalar key pairs :
  ordinary pairs -> Forall scalar (values_of key pairs).
Proof.
  induction 1 as [|[k v] pairs [_ Hv] _ IH]; [constructor|].
  cbn [values_of]. destruct (String.eqb k key); [by constructor | done].
Qed.

Lemma fresh_object_get key :
  inherited key = false -> Object_prototype_get None key = VUndefined.
Proof.
  unfold inherited, Object_prototype_get. intros H.
  apply orb_false_iff in H as [-> ->]. done.
Qed.

Lemma fold_step_invariant data seen k v :
  ordinary seen -> inherited k = false -> scalar v ->
  fold_invariant data seen ->
  fold_invariant (fold_step data (k, v)) (seen ++ [(k, v)]).
Proof.
  intros Hseen Hk Hv [Hproto Hown].
  assert (k <> "__proto__") as Hne.
  { intros ->. unfold inherited in Hk. by rewrite String.eqb_refl in Hk. }
  apply String.eqb_neq in Hne.
  pose proof (values_of_scalar k seen Hseen) as Hscalar.
  pose proof (Hown k) as Hcur.
  unfold fold_step, GetProp. rewrite Hcur, Hproto.
  assert (forall key, values_of key (seen ++ [(k, v)]) =
            (values_of key seen ++ if String.eqb k key then [v] else [])%list) as Happ.
  { intros key. rewrite values_of_app. cbn [values_of].
    by destruct (String.eqb k key). }
  destruct (values_of k seen) as [|v0 [|v1 rest]] eqn:Hvals; cbn [folded] in Hcur |- *.
  - rewrite (fresh_object_get k Hk). cbn [is_undefined negb].
    unfold SetProp. rewrite Hcur, Hne. split; [done|].
    intros key. cbn [own]. rewrite Happ.
    destruct (String.eqb_spec k key) as [<-|Hkey].
    + by rewrite lookup_insert_eq, Hvals.
    + rewrite lookup_insert_ne by done. by rewrite app_nil_r.
  - assert (scalar v0) as Hv0 by (by invert Hscalar).
    assert (fold_invariant
              (PushProp (SetProp data k (VArr [v0])) k [v0] v) (seen ++ [(k, v)])) as Hgoal.
    { unfold SetProp, PushProp. rewrite Hcur. cbn [own proto].
      rewrite lookup_insert_eq. split; [done|].
      intros key. cbn [own]. rewrite Happ.
      destruct (String.eqb_spec k key) as [<-|Hkey].
      - by rewrite lookup_insert_eq, Hvals.
      - rewrite !lookup_insert_ne by done. by rewrite app_nil_r. }
    by destruct v0.
  - cbn [is_undefined negb]. unfold PushProp. rewrite Hcur. split; [done|].
    intros key. cbn [own]. rewrite Happ.
    destruct (String.eqb_spec k key) as [<-|Hkey].
    + rewrite lookup_insert_eq, Hvals. done.
    + rewrite lookup_insert_ne by done. by rewrite app_nil_r.
Qed.

Lemma ordinary_app pairs pairs' :
  ordinary (pairs ++ pairs') <-> ordinary pairs /\ ordinary pairs'.
Proof. apply Forall_app. Qed.

(** On keys that a fresh object does not answer to, the fold stores for
    every key exactly the values supplied for it, in order. *)
Lemma fold_ordinary pairs :
  ordinary pairs -> fold_invariant (fold_left fold_step pairs empty_object) pairs.
Proof.
  induction pairs as [|[k v] pairs IH] using rev_ind.
  - intros _. split; [done|]. intros key. apply lookup_empty.
  - intros Hall. apply ordinary_app in Hall as [Hpairs Hlast].
    rewrite fold_left_app. cbn [fold_left].
    apply Forall_cons in Hlast as [[Hk Hv] _].
    apply fold_step_invariant; auto.
Qed.

Lemma string_entries_ordinary pairs :
  Forall (fun entry => inherited (fst entry) = false) pairs ->
  ordinary (string_entries pairs).
Proof.
  induction 1 as [|[k v] pairs Hk _ IH]; [constructor|].
  constructor; [by split | exact IH].
Qed.

Lemma form_entries_ordinary form :
  Forall (fun entry => inherited (fst entry) = false) form ->
  ordinary (form_entries form).
Proof.
  induction 1 as [|[k v] form Hk _ IH]; [constructor|].
  constructor; [|exact IH]. split; [done | by destruct v].
Qed.

(** The fold does what is claimed of it whenever no key is the name of a
    property that a fresh object inherits: a key supplied once is stored
    with its value, a key supplied [n > 1] times with the sequence of its
    [n] values in source order, duplicates included, and the prototype of
    the result is untouched. *)
Lemma multi_value_fold_ordinary_keys :
  (forall search, Forall (fun entry => inherited (fst entry) = false) search ->
     fold_invariant (searchParamsToObject search) (string_entries search)) /\
  (forall headers, Forall (fun entry => inherited (fst entry) = false) headers ->
     fold_invariant (headersToObject headers) (string_entries headers)) /\
  (forall form, Forall (fun entry => inherited (fst entry) = false) form ->
     fold_invariant (formToObject form) (form_entries form)).
Proof.
  split; [|split]; intros pairs H.
  - apply (fold_ordinary (string_entries pairs)), string_entries_ordinary, H.
  - apply (fold_ordinary (string_entries pairs)), string_entries_ordinary, H.
  - apply (fold_ordinary (form_entries pairs)), form_entries_ordinary, H.
Qed.

Lemma folded_many values :
  (1 < length values)%nat -> folded values = Some (VArr values).
Proof. destruct values as [|v0 [|v1 rest]]; cbn; [lia | lia | done]. Qed.

(** The same in the words of the claim: one occurrence gives the scalar,
    [n > 1] occurrences give the sequence of the [n] values in source
    order, no occurrence gives no entry. *)
Lemma fold_ordinary_occurrences pairs key :
  ordinary pairs ->
  let data := fold_left fold_step pairs empty_object in
  let supplied := values_of key pairs in
  (forall v, supplied = [v] -> own data !! key = Some v) /\
  ((1 < length supplied)%nat -> own data !! key = Some (VArr supplied)) /\
  (supplied = [] -> own data !! key = None).
Proof.
  intros Hord data supplied.
  destruct (fold_ordinary pairs Hord) as [_ Hown].
  fold data in Hown. specialize (Hown key). fold supplied in Hown.
  split; [|split].
  - intros v Hv. by rewrite Hown, Hv.
  - intros Hlen. by rewrite Hown, folded_many.
  - intros Hnil. by rewrite Hown, Hnil.
Qed.

(** After an assignment under ["__proto__"] the prototype of the result
    is an array. *)
Example fold_proto_key :
  searchParamsToObject [("__proto__", "1"); ("length", "2")]
  = mkObj {["length" := VArr [VNum 2; VStr "2"]]}
          (Some [VNative "Object.prototype"; VStr "1"]).
Proof. vm_compute. reflexivity. Qed.

(** C5, at the failing input.  The key ["constructor"] is supplied once,
    with the value ["1"].  The test [data[key] !== undefined] finds the
    function every plain object inherits under that name, so the fold
    stores a two-element sequence that starts with that function, not the
    scalar ["1"]; the three folds agree on this. *)
Theorem fold_inherited_key :
  let stored := VArr [VNative "Object.prototype.constructor"; VStr "1"] in
  values_of "constructor" (string_entries [("constructor", "1")]) = [VStr "1"] /\
  searchParamsToObject [("constructor", "1")] = mkObj {["constructor" := stored]} None /\
  headersToObject [("constructor", "1")] = mkObj {["constructor" := stored]} None /\
  formToObject [("constructor", EntryString "1")] = mkObj {["constructor" := stored]} None /\
  own (searchParamsToObject [("constructor", "1")]) !! "constructor" <> Some (VStr "1").
Proof.
  cbv zeta. repeat split; try (vm_compute; reflexivity).
  vm_compute. discriminate.
Qed.

(* ===================================================================== *)
(** * 6. Further properties of the code                                   *)
(* ===================================================================== *)

(** ** The fold on every key but ["__proto__"] *)

Lemma scalar_flat v : scalar v -> flat v.
Proof. by destruct v. Qed.

Lemma folded_cons_cons v0 v1 rest : folded (v0 :: v1 :: rest) = Some (VArr (v0 :: v1 :: rest)).
Proof. reflexivity. Qed.

Lemma values_of_snoc key pairs k v :
  values_of key (pairs ++ [(k, v)]) =
    (values_of key pairs ++ if String.eqb k key then [v] else [])%list.
Proof. rewrite values_of_app. cbn [values_of]. by destruct (String.eqb k key). Qed.

Lemma proto_free_values key pairs :
  proto_free pairs -> Forall scalar (values_of key pairs).
Proof.
  induction 1 as [|[k v] pairs [_ Hv] _ IH]; [constructor|].
  cbn [values_of]. destruct (String.eqb k key); [by constructor | done].
Qed.

Lemma preset_get key :
  key <> "__proto__" ->
  Object_prototype_get None key =
    match preset key with
    | [] => VUndefined
    | v :: _ => v
    end.
Proof.
  intros Hne. apply String.eqb_neq in Hne.
  unfold Object_prototype_get, preset. rewrite Hne.
  by destruct (mem key Object_prototype_keys).
Qed.

Lemma preset_cases key :
  preset key = [] \/ preset key = [VNative ("Object.prototype." +:+ key)].
Proof. unfold preset. destruct (mem key Object_prototype_keys); auto. Qed.

Lemma fold_step_stored data seen k v :
  proto_free seen -> k <> "__proto__" -> scalar v ->
  stored_invariant data seen ->
  stored_invariant (fold_step data (k, v)) (seen ++ [(k, v)]).
Proof.
  intros Hseen Hk Hv [Hproto Hown].
  pose proof (proto_free_values k seen Hseen) as Hscalar.
  pose proof (Hown k) as Hcur.
  pose proof (preset_get k Hk) as Hget.
  apply String.eqb_neq in Hk.
  assert (forall obj value,
            proto obj = None ->
            (forall key, own obj !! key = if String.eqb k key then Some value
                                          else own data !! key) ->
            stored k (values_of k seen ++ [v]) = Some value ->
            stored_invariant obj (seen ++ [(k, v)])) as Hclose.
  { intros obj value Hp Ho Hs. split; [done|]. intros key.
    rewrite Ho, values_of_snoc.
    destruct (String.eqb_spec k key) as [<-|Hkey]; [done|].
    by rewrite app_nil_r. }
  unfold fold_step, GetProp. rewrite Hcur, Hproto.
  destruct (values_of k seen) as [|v0 rest] eqn:Hvals.
  - cbn [stored] in Hcur |- *. rewrite Hget.
    destruct (preset_cases k) as [Hpre|Hpre]; rewrite Hpre.
    + cbn [is_undefined negb]. unfold SetProp. rewrite Hcur, Hk.
      apply (Hclose _ v); [done| |].
      * intros key. cbn [own]. destruct (String.eqb_spec k key) as [<-|Hkey].
        -- by rewrite lookup_insert_eq.
        -- by rewrite lookup_insert_ne.
      * cbn [app stored]. by rewrite Hpre.
    + cbn [is_undefined negb]. unfold SetProp, PushProp. rewrite Hcur, Hk. cbn [own proto].
      rewrite lookup_insert_eq.
      apply (Hclose _ (VArr [VNative ("Object.prototype." +:+ k); v])); [done| |].
      * intros key. cbn [own]. destruct (String.eqb_spec k key) as [<-|Hkey].
        -- by rewrite lookup_insert_eq.
        -- by rewrite !lookup_insert_ne.
      * cbn [app stored]. by rewrite Hpre.
  - assert (stored k (v0 :: rest) = folded (preset k ++ v0 :: rest)) as Hst by done.
    rewrite Hst in Hcur |- *.
    assert (scalar v0) as Hv0 by (by invert Hscalar).
    destruct (preset k ++ v0 :: rest)%list as [|w0 [|w1 ws]] eqn:Hall.
    + by destruct (preset k).
    + (* one stored scalar *)
      assert (preset k = [] /\ rest = [] /\ w0 = v0) as (Hpre & -> & ->).
      { destruct (preset_cases k) as [Hpre|Hpre]; rewrite Hpre in Hall; cbn in Hall.
        - by invert Hall.
        - invert Hall. }
      cbn [folded] in Hcur.
      assert (stored_invariant
                (PushProp (SetProp data k (VArr [v0])) k [v0] v) (seen ++ [(k, v)])) as Hgoal.
      { unfold SetProp, PushProp. rewrite Hcur. cbn [own proto].
        rewrite lookup_insert_eq.
        apply (Hclose _ (VArr [v0; v])); [done| |].
        - intros key. cbn [own]. destruct (String.eqb_spec k key) as [<-|Hkey].
          + by rewrite lookup_insert_eq.
          + by rewrite !lookup_insert_ne.
        - cbn [app stored]. by rewrite Hpre. }
      cbn [folded]. by destruct v0.
    + rewrite folded_cons_cons in Hcur |- *.
      cbn [is_undefined negb]. unfold PushProp. rewrite Hcur.
      apply (Hclose _ (VArr ((w0 :: w1 :: ws) ++ [v]))); [done| |].
      * intros key. cbn [own]. destruct (String.eqb_spec k key) as [<-|Hkey].
        -- by rewrite lookup_insert_eq.
        -- by rewrite lookup_insert_ne.
      * change ((v0 :: rest) ++ [v])%list with (v0 :: (rest ++ [v]))%list.
        cbn [stored].
        change (v0 :: (rest ++ [v]))%list with ((v0 :: rest) ++ [v])%list.
        rewrite app_assoc, Hall. reflexivity.
Qed.

Lemma proto_free_app pairs pairs' :
  proto_free (pairs ++ pairs') <-> proto_free pairs /\ proto_free pairs'.
Proof. apply Forall_app. Qed.

Lemma fold_stored pairs :
  proto_free pairs -> stored_invariant (fold_left fold_step pairs empty_object) pairs.
Proof.
  induction pairs as [|[k v] pairs IH] using rev_ind.
  - intros _. split; [done|]. intros key. apply lookup_empty.
  - intros Hall. apply proto_free_app in Hall as [Hpairs Hlast].
    rewrite fold_left_app. cbn [fold_left].
    apply Forall_cons in Hlast as [[Hk Hv] _].
    apply fold_step_stored; auto.
Qed.

Lemma string_entries_proto_free (pairs : list (string * string)) :
  no_proto_key pairs -> proto_free (string_entries pairs).
Proof.
  unfold no_proto_key, keys_of. intros H.
  induction pairs as [|[k v] pairs IH]; [constructor|].
  apply Forall_cons in H as [Hk H].
  constructor; [by split | by apply IH].
Qed.

Lemma form_entries_proto_free (form : FormData) :
  no_proto_key form -> proto_free (form_entries form).
Proof.
  unfold no_proto_key, keys_of. intros H.
  induction form as [|[k v] form IH]; [constructor|].
  apply Forall_cons in H as [Hk H].
  constructor; [|by apply IH]. split; [done | by destruct v].
Qed.

Lemma stored_entry data key values :
  own data !! key = stored key values -> fold_entry data key values.
Proof.
  intros Hown. unfold fold_entry, stored, preset in *.
  destruct (mem key Object_prototype_keys); repeat split; try done.
  - intros ->. done.
  - intros _ Hne. destruct values; [done|]. by rewrite Hown.
  - intros ->. done.
  - intros _ v ->. done.
  - intros _ Hlen. destruct values as [|v0 [|v1 rest]]; cbn in Hlen; try lia. done.
Qed.

(** The fold on every key but ["__proto__"].  As long as no pair has the
    key ["__proto__"], the prototype of the result is untouched, and the
    entry under each key is determined by the values supplied for it: a key
    that is the name of a property of [Object.prototype] and is supplied
    [n >= 1] times holds a sequence of [n + 1] elements, the inherited
    function first; any other key holds its single value, or the sequence
    of its [n > 1] values in source order. *)
Theorem fold_every_key :
  (forall (search : URLSearchParams) key, no_proto_key search ->
     proto (searchParamsToObject search) = None /\
     fold_entry (searchParamsToObject search) key (values_of key (string_entries search))) /\
  (forall (headers : Headers) key, no_proto_key headers ->
     proto (headersToObject headers) = None /\
     fold_entry (headersToObject headers) key (values_of key (string_entries headers))) /\
  (forall (form : FormData) key, no_proto_key form ->
     proto (formToObject form) = None /\
     fold_entry (formToObject form) key (values_of key (form_entries form))).
Proof.
  split; [|split]; intros pairs key H.
  - destruct (fold_stored (string_entries pairs) (string_entries_proto_free pairs H))
      as [Hp Ho].
    split; [exact Hp | apply stored_entry, Ho].
  - destruct (fold_stored (string_entries pairs) (string_entries_proto_free pairs H))
      as [Hp Ho].
    split; [exact Hp | apply stored_entry, Ho].
  - destruct (fold_stored (form_entries pairs) (form_entries_proto_free pairs H))
      as [Hp Ho].
    split; [exact Hp | apply stored_entry, Ho].
Qed.

Lemma fold_every_key_witness :
  own (searchParamsToObject [("toString", "x"); ("a", "1"); ("toString", "y")]) !! "toString"
    = Some (VArr [VNative "Object.prototype.toString"; VStr "x"; VStr "y"]).
Proof.
  assert (no_proto_key [("toString", "x"); ("a", "1"); ("toString", "y")]) as H.
  { unfold no_proto_key, keys_of. cbn [map fst]. repeat constructor; discriminate. }
  destruct (proj1 fold_every_key _ "toString" H) as (_ & _ & Hin & _).
  apply Hin; [reflexivity | discriminate].
Defined.

(** ** Query parameters: what each input form hands to the schema (C10) *)

(** C10.  Given a bare [URLSearchParams], the three query parsers hand
    that object itself to the schema, its pairs unfolded; given a
    [Request] with the same query pairs, they hand it the object that the
    multi-value fold builds from them: as long as no pair has the key
    ["__proto__"], a plain object that holds, for every key, nothing when
    the key is not supplied, and otherwise the single value or the
    sequence of the values in source order (after the inherited function,
    for a name that plain objects inherit).  The two validation inputs are
    never the same value, and a schema can give different outcomes on
    them: a schema for objects with a string under ["name"] accepts the
    folded object of a query that supplies [name] once, in all three
    shapes, and rejects the bare [URLSearchParams] of the same pairs. *)
Theorem parseQuery_input_forms (cfg : Config) (search : URLSearchParams)
    (headers : Headers) (body : Promise JsValue) (form : Promise FormData)
    (schema : ZodType) (defaultValue : JsValue) :
  let request := mkRequest headers search body form in
  let data := searchParamsToObject search in
  (parseQuery cfg (FromSearchParams search) schema
     = parseOrThrow cfg schema (VSearchParams search) /\
   parseQuerySafe (FromSearchParams search) schema
     = safeParseAsync schema (VSearchParams search) /\
   parseQueryWithDefault (FromSearchParams search) schema defaultValue
     = (let! result := safeParseAsync schema (VSearchParams search) in
        Resolved (orDefault defaultValue result))) /\
  (parseQuery cfg (FromRequest request) schema
     = parseOrThrow cfg schema (object_value data) /\
   parseQuerySafe (FromRequest request) schema
     = safeParseAsync schema (object_value data) /\
   parseQueryWithDefault (FromRequest request) schema defaultValue
     = (let! result := safeParseAsync schema (object_value data) in
        Resolved (orDefault defaultValue result))) /\
  (no_proto_key search ->
     proto data = None /\
     forall key, fold_entry data key (values_of key (string_entries search))) /\
  VSearchParams search <> object_value data /\
  parseQuerySafe (FromSearchParams search) plain_object_schema
    <> parseQuerySafe (FromRequest request) plain_object_schema /\
  (no_proto_key search ->
   forall v, values_of "name" (string_entries search) = [VStr v] ->
     (parseQuery cfg (FromRequest request) name_schema = Resolved (object_value data) /\
      parseQuerySafe (FromRequest request) name_schema
        = Resolved (SafeSuccess (object_value data)) /\
      parseQueryWithDefault (FromRequest request) name_schema defaultValue
        = Resolved (object_value data)) /\
     (parseQuery cfg (FromSearchParams search) name_schema = Rejected (BadRequest cfg) /\
      parseQuerySafe (FromSearchParams search) name_schema
        = Resolved (SafeError (ZodError "Expected object")) /\
      parseQueryWithDefault (FromSearchParams search) name_schema defaultValue
        = Resolved defaultValue)).
Proof.
  intros request data.
  assert (no_proto_key search ->
          proto data = None /\
          forall key, fold_entry data key (values_of key (string_entries search))) as Hfold.
  { intros Hkeys.
    destruct (fold_stored (string_entries search) (string_entries_proto_free search Hkeys))
      as [Hproto Hown].
    split; [exact Hproto|]. intros key. apply stored_entry, Hown. }
  split; [repeat split|]. split; [repeat split|]. split; [exact Hfold|].
  split; [discriminate|]. split; [cbn; discriminate|].
  intros Hkeys v Hname.
  destruct (Hfold Hkeys) as [_ Hentries].
  destruct (Hentries "name") as (_ & _ & Hsingle & _).
  pose proof (Hsingle eq_refl (VStr v) Hname) as Hstored.
  assert (name_schema (object_value data) = Valid (object_value data)) as Hvalid.
  { unfold object_value, name_schema. by rewrite Hstored. }
  split.
  - rewrite parseQuery_input, parseQuerySafe_input, parseQueryWithDefault_input.
    change (query_input (FromRequest request)) with (object_value data).
    unfold parseOrThrow, parseAsync, safeParseAsync. by rewrite Hvalid.
  - repeat split.
Qed.

Lemma parseQuery_input_forms_witness :
  let search := [("name", "a"); ("tag", "x"); ("tag", "y")] in
  let request := mkRequest [] search (Resolved VNull) (Resolved []) in
  own (searchParamsToObject search) !! "tag" = Some (VArr [VStr "x"; VStr "y"]) /\
  parseQuerySafe (FromRequest request) name_schema
    = Resolved (SafeSuccess (object_value (searchParamsToObject search))) /\
  parseQuerySafe (FromSearchParams search) name_schema
    = Resolved (SafeError (ZodError "Expected object")).
Proof.
  intros search request.
  assert (no_proto_key search) as Hkeys.
  { unfold no_proto_key, keys_of. cbn [map fst search]. repeat constructor; discriminate. }
  destruct (parseQuery_input_forms default_config search [] (Resolved VNull) (Resolved [])
              name_schema VNull) as (_ & _ & Hfold & _ & _ & Hname).
  destruct (Hfold Hkeys) as [_ Hentries].
  destruct (Hentries "tag") as (_ & _ & _ & Hmany).
  destruct (Hname Hkeys "a" eq_refl) as ((_ & Hrequest & _) & (_ & Hdirect & _)).
  split; [|split].
  - apply Hmany; [reflexivity | cbn; lia].
  - exact Hrequest.
  - exact Hdirect.
Defined.

Lemma stored_invariant_unique data data' seen seen' :
  stored_invariant data seen -> stored_invariant data' seen' ->
  (forall key, values_of key seen = values_of key seen') ->
  data = data'.
Proof.
  intros [Hp Ho] [Hp' Ho'] Hsame.
  destruct data as [o p], data' as [o' p']. cbn [own proto] in *. subst p p'.
  f_equal. apply map_eq. intros key. by rewrite Ho, Ho', Hsame.
Qed.

(** Interleaving.  Two sequences of pairs, none under ["__proto__"], that
    supply every key with the same values in the same order fold to the
    same object, however the pairs of different keys are interleaved. *)
Theorem fold_interleaving :
  (forall (s1 s2 : URLSearchParams), no_proto_key s1 -> no_proto_key s2 ->
     (forall key, values_of key (string_entries s1) = values_of key (string_entries s2)) ->
     searchParamsToObject s1 = searchParamsToObject s2) /\
  (forall (h1 h2 : Headers), no_proto_key h1 -> no_proto_key h2 ->
     (forall key, values_of key (string_entries h1) = values_of key (string_entries h2)) ->
     headersToObject h1 = headersToObject h2) /\
  (forall (f1 f2 : FormData), no_proto_key f1 -> no_proto_key f2 ->
     (forall key, values_of key (form_entries f1) = values_of key (form_entries f2)) ->
     formToObject f1 = formToObject f2).
Proof.
  split; [|split]; intros p1 p2 H1 H2 Hsame.
  - eapply stored_invariant_unique; [| |exact Hsame];
      by apply fold_stored, string_entries_proto_free.
  - eapply stored_invariant_unique; [| |exact Hsame];
      by apply fold_stored, string_entries_proto_free.
  - eapply stored_invariant_unique; [| |exact Hsame];
      by apply fold_stored, form_entries_proto_free.
Qed.

Lemma fold_interleaving_witness :
  searchParamsToObject [("a", "1"); ("b", "2"); ("a", "3")]
  = searchParamsToObject [("a", "1"); ("a", "3"); ("b", "2")].
Proof.
  apply (proj1 fold_interleaving).
  - unfold no_proto_key, keys_of. cbn [map fst]. repeat constructor; discriminate.
  - unfold no_proto_key, keys_of. cbn [map fst]. repeat constructor; discriminate.
  - intros key. cbn [string_entries map values_of].
    destruct (String.eqb_spec "a" key) as [<-|Ha]; [reflexivity|].
    destruct (String.eqb "b" key); reflexivity.
Defined.

Lemma values_of_nil_iff key (pairs : list (string * JsValue)) :
  values_of key pairs = [] <-> ~ In key (keys_of pairs).
Proof.
  unfold keys_of. induction pairs as [|[k v] pairs IH]; cbn [values_of map fst In].
  - tauto.
  - destruct (String.eqb_spec k key) as [->|Hne].
    + split; [discriminate | intros H; exfalso; apply H; by left].
    + rewrite IH. tauto.
Qed.

Lemma keys_of_string_entries pairs : keys_of (string_entries pairs) = keys_of pairs.
Proof.
  unfold keys_of, string_entries. induction pairs as [|[k v] pairs IH]; [done|].
  cbn [map fst]. by rewrite IH.
Qed.

Lemma keys_of_form_entries form : keys_of (form_entries form) = keys_of form.
Proof.
  unfold keys_of, form_entries. induction form as [|[k v] form IH]; [done|].
  cbn [map fst]. by rewrite IH.
Qed.

Lemma stored_is_Some key values : is_Some (stored key values) <-> values <> [].
Proof.
  unfold stored. destruct values as [|v0 rest]; [split; [by intros [? ?] | done]|].
  split; [done | intros _].
  unfold preset. destruct (mem key Object_prototype_keys); [by eexists|].
  destruct rest; by eexists.
Qed.

Lemma stored_invariant_dom data seen :
  stored_invariant data seen ->
  dom (own data) = (list_to_set (keys_of seen) : gset string).
Proof.
  intros [_ Ho]. apply set_eq. intros key.
  rewrite elem_of_dom, Ho, stored_is_Some, values_of_nil_iff, elem_of_list_to_set.
  rewrite <- list_elem_of_In. split; [|tauto].
  intros H. destruct (decide (key ∈ keys_of seen)); tauto.
Qed.

(** The keys of the result.  Without a pair under ["__proto__"], the own
    properties of the folded object are exactly the keys that occur in
    the source, whether they occur once or several times. *)
Theorem fold_keys :
  (forall (search : URLSearchParams), no_proto_key search ->
     dom (own (searchParamsToObject search)) = (list_to_set (keys_of search) : gset string)) /\
  (forall (headers : Headers), no_proto_key headers ->
     dom (own (headersToObject headers)) = (list_to_set (keys_of headers) : gset string)) /\
  (forall (form : FormData), no_proto_key form ->
     dom (own (formToObject form)) = (list_to_set (keys_of form) : gset string)).
Proof.
  split; [|split]; intros pairs H.
  - rewrite <- keys_of_string_entries.
    by apply stored_invariant_dom, fold_stored, string_entries_proto_free.
  - rewrite <- keys_of_string_entries.
    by apply stored_invariant_dom, fold_stored, string_entries_proto_free.
  - rewrite <- keys_of_form_entries.
    by apply stored_invariant_dom, fold_stored, form_entries_proto_free.
Qed.

Lemma fold_keys_witness :
  dom (own (headersToObject [("accept", "*/*"); ("set-cookie", "a=1"); ("set-cookie", "b=2")]))
  = ({["accept"; "set-cookie"]} : gset string).
Proof.
  rewrite (proj1 (proj2 fold_keys)).
  - vm_compute. reflexivity.
  - unfold no_proto_key, keys_of. cbn [map fst]. repeat constructor; discriminate.
Defined.

(** ** The fold under the key ["__proto__"] *)

Lemma pretty_N_go_no_underscore x s s' :
  s <> String "_" s' -> pretty_N_go x s <> String "_" s'.
Proof.
  revert s. induction (N.lt_wf_0 x) as [x _ IH]. intros s Hs.
  destruct (decide (x = 0)%N) as [->|Hx]; [by rewrite pretty_N_go_0|].
  rewrite pretty_N_go_step by lia.
  apply IH; [apply N.div_lt; lia|].
  unfold pretty_N_char. intros [= Hc _]. revert Hc. by repeat case_match.
Qed.

Lemma pretty_nat_not_proto (i : nat) : pretty i <> "__proto__".
Proof.
  unfold pretty, pretty_nat, pretty, pretty_N.
  case_decide; [discriminate|]. by apply pretty_N_go_no_underscore.
Qed.

Lemma array_index_proto len : array_index len "__proto__" = None.
Proof.
  unfold array_index. destruct (List.find _ _) as [i|] eqn:Hfind; [|done].
  apply find_some in Hfind as [_ Heq]. apply String.eqb_eq in Heq.
  by destruct (pretty_nat_not_proto i).
Qed.

Lemma all_scalar_values key pairs :
  all_scalar pairs -> Forall scalar (values_of key pairs).
Proof.
  induction 1 as [|[k v] pairs Hv _ IH]; [constructor|].
  cbn [values_of]. destruct (String.eqb k key); [by constructor | done].
Qed.

Lemma folded_prototype_flat values elems :
  Forall scalar values -> folded_prototype values = Some elems -> Forall flat elems.
Proof.
  intros Hs. destruct values as [|v0 rest]; [done|]. intros [= <-].
  constructor; [done|]. eapply Forall_impl; [exact Hs | apply scalar_flat].
Qed.

(** A read that finds no own property never yields an array, except under
    ["__proto__"]. *)
Lemma inherited_read_flat data key elems :
  own data !! key = None -> key <> "__proto__" ->
  (forall pelems, proto data = Some pelems -> Forall flat pelems) ->
  GetProp data key <> VArr elems.
Proof.
  intros Hown Hne Hflat. apply String.eqb_neq in Hne.
  unfold GetProp. rewrite Hown.
  assert (Object_prototype_get (proto data) key <> VArr elems) as Hobj.
  { unfold Object_prototype_get. rewrite Hne.
    by destruct (mem key Object_prototype_keys). }
  destruct (proto data) as [pelems|] eqn:Hproto; [|done].
  unfold Array_instance_get.
  destruct (array_index (length pelems) key) as [i|] eqn:Hidx.
  - specialize (Hflat pelems eq_refl).
    destruct (nth_in_or_default i pelems VUndefined) as [Hin| ->]; [|done].
    rewrite List.Forall_forall in Hflat. specialize (Hflat _ Hin).
    intros Heq. by rewrite Heq in Hflat.
  - destruct (String.eqb key "length"); [done|].
    by destruct (mem key Array_prototype_keys).
Qed.

Lemma fold_step_prototype data seen k v :
  all_scalar seen -> scalar v ->
  prototype_invariant data seen ->
  prototype_invariant (fold_step data (k, v)) (seen ++ [(k, v)]).
Proof.
  intros Hseen Hv [Hown Hproto].
  pose proof (all_scalar_values "__proto__" seen Hseen) as Hvals.
  unfold prototype_invariant. rewrite values_of_snoc.
  destruct (String.eqb_spec k "__proto__") as [->|Hne].
  - (* the pair is under "__proto__" *)
    unfold fold_step, GetProp. rewrite Hown, Hproto.
    destruct (values_of "__proto__" seen) as [|v0 rest] eqn:Hseen_proto;
      cbn [folded_prototype].
    + change (Object_prototype_get None "__proto__") with (VNative "Object.prototype").
      cbn [is_undefined negb]. unfold SetProp, PushProp. rewrite Hown.
      change (String.eqb "__proto__" "__proto__") with true. cbn [own proto].
      rewrite Hown, array_index_proto. done.
    + unfold Array_instance_get. rewrite array_index_proto.
      change (String.eqb "__proto__" "length") with false.
      change (mem "__proto__" Array_prototype_keys) with false.
      change (Object_prototype_get ?p "__proto__") with
        (match p with None => VNative "Object.prototype" | Some elems => VArr elems end).
      cbn [is_undefined negb]. unfold PushProp. rewrite Hown, Hproto.
      cbn [folded_prototype]. rewrite array_index_proto.
      change (String.eqb "__proto__" "__proto__") with true. cbn [own proto]. done.
  - (* any other key leaves the prototype alone *)
    rewrite app_nil_r.
    assert (String.eqb k "__proto__" = false) as Hneb by (by apply String.eqb_neq).
    assert (forall w, own (SetProp data k w) !! "__proto__" = None /\
                      proto (SetProp data k w) = proto data /\
                      is_Some (own (SetProp data k w) !! k)) as Hset.
    { intros w. unfold SetProp. rewrite Hneb.
      destruct (own data !! k); cbn [own proto];
        rewrite lookup_insert_ne by done; rewrite lookup_insert_eq; eauto. }
    assert (forall obj elems, own obj !! "__proto__" = None -> proto obj = proto data ->
              is_Some (own obj !! k) ->
              own (PushProp obj k elems v) !! "__proto__" = None /\
              proto (PushProp obj k elems v) = proto data) as Hpush.
    { intros obj elems Ho Hp [w Hw]. unfold PushProp. rewrite Hw. cbn [own proto].
      by rewrite lookup_insert_ne. }
    rewrite <- Hproto. unfold fold_step.
    destruct (GetProp data k) eqn:Hcur; cbn [is_undefined negb];
      try (destruct (Hset (VArr [GetProp data k])) as (Ho & Hp & Hk);
           rewrite Hcur in Ho, Hp, Hk; by apply Hpush).
    + by destruct (Hset v) as (Ho & Hp & _).
    + apply Hpush; [done..|].
      destruct (own data !! k) eqn:Hk; [by eexists|].
      exfalso. eapply (inherited_read_flat data k); [done..| |exact Hcur].
      intros pelems Hpe. rewrite Hproto in Hpe.
      by eapply folded_prototype_flat.
Qed.

Lemma all_scalar_app pairs pairs' :
  all_scalar (pairs ++ pairs') <-> all_scalar pairs /\ all_scalar pairs'.
Proof. apply Forall_app. Qed.

Lemma fold_prototype pairs :
  all_scalar pairs -> prototype_invariant (fold_left fold_step pairs empty_object) pairs.
Proof.
  induction pairs as [|[k v] pairs IH] using rev_ind.
  - intros _. split; [apply lookup_empty | done].
  - intros Hall. apply all_scalar_app in Hall as [Hpairs Hlast].
    rewrite fold_left_app. cbn [fold_left].
    apply Forall_cons in Hlast as [Hv _].
    apply fold_step_prototype; auto.
Qed.

Lemma string_entries_scalar pairs : all_scalar (string_entries pairs).
Proof. induction pairs as [|[k v] pairs IH]; by constructor. Qed.

Lemma form_entries_scalar form : all_scalar (form_entries form).
Proof. induction form as [|[k [s|f]] form IH]; by constructor. Qed.

(** The prototype of the result, for every input.  The folded object
    never gets an own property ["__proto__"].  Its prototype stays
    [Object.prototype] exactly when no pair has that key; otherwise it is
    replaced by an array that holds [Object.prototype] and then the values
    supplied under ["__proto__"], in source order. *)
Theorem fold_prototype_key :
  (forall (search : URLSearchParams),
     own (searchParamsToObject search) !! "__proto__" = None /\
     proto (searchParamsToObject search)
       = folded_prototype (values_of "__proto__" (string_entries search)) /\
     (proto (searchParamsToObject search) = None <-> ~ In "__proto__" (keys_of search))) /\
  (forall (headers : Headers),
     own (headersToObject headers) !! "__proto__" = None /\
     proto (headersToObject headers)
       = folded_prototype (values_of "__proto__" (string_entries headers)) /\
     (proto (headersToObject headers) = None <-> ~ In "__proto__" (keys_of headers))) /\
  (forall (form : FormData),
     own (formToObject form) !! "__proto__" = None /\
     proto (formToObject form)
       = folded_prototype (values_of "__proto__" (form_entries form)) /\
     (proto (formToObject form) = None <-> ~ In "__proto__" (keys_of form))).
Proof.
  assert (forall values, folded_prototype values = None <-> values = []) as Hnone
    by (intros [|? ?]; split; done).
  split; [|split]; intros pairs.
  - destruct (fold_prototype (string_entries pairs) (string_entries_scalar pairs)) as [Ho Hp].
    split; [exact Ho|]. split; [exact Hp|].
    rewrite <- keys_of_string_entries, <- values_of_nil_iff, <- Hnone. by rewrite <- Hp.
  - destruct (fold_prototype (string_entries pairs) (string_entries_scalar pairs)) as [Ho Hp].
    split; [exact Ho|]. split; [exact Hp|].
    rewrite <- keys_of_string_entries, <- values_of_nil_iff, <- Hnone. by rewrite <- Hp.
  - destruct (fold_prototype (form_entries pairs) (form_entries_scalar pairs)) as [Ho Hp].
    split; [exact Ho|]. split; [exact Hp|].
    rewrite <- keys_of_form_entries, <- values_of_nil_iff, <- Hnone. by rewrite <- Hp.
Qed.

(** ** The three outcome shapes, source by source *)

Lemma parseBodySafe_input cfg request schema value :
  body_input request = Some value ->
  parseBodySafe cfg request schema = safeParseAsync schema value.
Proof.
  unfold body_input, parseBodySafe, parseJsonSafe, parseFormSafe.
  destruct (getBodyEncoding request); [| |done].
  - destruct (request_json request); [|done]. by intros [= <-].
  - destruct (request_formData request); [|done]. by intros [= <-].
Qed.

Lemma parseBodyWithDefault_input cfg request schema defaultValue value :
  body_input request = Some value ->
  parseBodyWithDefault cfg request schema defaultValue =
    let! result := safeParseAsync schema value in
    Resolved (orDefault defaultValue result).
Proof.
  unfold body_input, parseBodyWithDefault, parseJsonWithDefault, parseFormWithDefault.
  destruct (getBodyEncoding request); [| |done].
  - destruct (request_json request); [|done]. by intros [= <-].
  - destruct (request_formData request); [|done]. by intros [= <-].
Qed.

Lemma safeParseAsync_tagged schema value :
  runs_clean schema value ->
  exists result, safeParseAsync schema value = Resolved result /\
                 tagged (schema value) result.
Proof.
  unfold runs_clean, safeParseAsync, tagged. intros Hclean.
  destruct (schema value) as [data|error|exn]; [by eexists..|].
  by destruct (Hclean exn).
Qed.

(** The safe shape.  When the source can be read and no callback of the
    schema throws on it, every safe parser resolves, to the success tag
    with the parsed data when the schema accepts and to the failure tag
    with the schema's error when it reports issues; none of them rejects. *)
Theorem safe_parsers_resolve (cfg : Config) (schema : ZodType) (value : JsValue) :
  runs_clean schema value ->
  exists result,
    tagged (schema value) result /\
    parseParamsSafe value schema = Resolved result /\
    (forall request, request_json request = Resolved value ->
       parseJsonSafe request schema = Resolved result) /\
    (forall request form, request_formData request = Resolved form ->
       object_value (formToObject form) = value ->
       parseFormSafe request schema = Resolved result) /\
    (forall request, body_input request = Some value ->
       parseBodySafe cfg request schema = Resolved result) /\
    (forall request, query_input request = value ->
       parseQuerySafe request schema = Resolved result) /\
    (forall headers, object_value (headersToObject headers) = value ->
       parseHeadersSafe headers schema = Resolved result).
Proof.
  intros Hclean.
  destruct (safeParseAsync_tagged schema value Hclean) as (result & Hsafe & Htag).
  exists result. split; [exact Htag|]. split; [exact Hsafe|].
  split; [|split; [|split; [|split]]].
  - intros request Hbody. unfold parseJsonSafe. by rewrite Hbody.
  - intros request form Hbody Hdata. unfold parseFormSafe. rewrite Hbody. cbn [bind].
    by rewrite Hdata.
  - intros request Hin. by rewrite (parseBodySafe_input _ _ _ _ Hin).
  - intros request Hin. by rewrite parseQuerySafe_input, Hin.
  - intros headers Hdata. unfold parseHeadersSafe. by rewrite Hdata.
Qed.

Lemma safe_parsers_resolve_witness :
  parseJsonSafe (json_request name_5) name_schema
    = Resolved (SafeError (ZodError "Expected string")).
Proof.
  assert (runs_clean name_schema name_5) as Hclean by (intros exn; discriminate).
  destruct (safe_parsers_resolve default_config name_schema name_5 Hclean)
    as (result & Htag & _ & Hjson & _).
  assert (result = SafeError (ZodError "Expected string")) as -> by exact Htag.
  apply Hjson. reflexivity.
Defined.

(** Reading the body comes before any validation and outside the [try]:
    when [request.json()] or [request.formData()] rejects, the JSON and
    form parsers of all three shapes reject with that very reason; it is
    not turned into the bad request, a failure tag or the default. *)
Theorem body_read_failure_propagates (cfg : Config) (request : Request)
    (schema : ZodType) (defaultValue reason : JsValue) :
  (request_json request = Rejected reason ->
     parseJson cfg request schema = Rejected reason /\
     parseJsonSafe request schema = Rejected reason /\
     parseJsonWithDefault request schema defaultValue = Rejected reason /\
     (getBodyEncoding request = enc_json ->
        parseBody cfg request schema = Rejected reason /\
        parseBodySafe cfg request schema = Rejected reason /\
        parseBodyWithDefault cfg request schema defaultValue = Rejected reason)) /\
  (request_formData request = Rejected reason ->
     parseForm cfg request schema = Rejected reason /\
     parseFormSafe request schema = Rejected reason /\
     parseFormWithDefault request schema defaultValue = Rejected reason /\
     (getBodyEncoding request = enc_form ->
        parseBody cfg request schema = Rejected reason /\
        parseBodySafe cfg request schema = Rejected reason /\
        parseBodyWithDefault cfg request schema defaultValue = Rejected reason)).
Proof.
  unfold parseBody, parseBodySafe, parseBodyWithDefault,
    parseJson, parseJsonSafe, parseJsonWithDefault,
    parseForm, parseFormSafe, parseFormWithDefault.
  split; intros Hread; rewrite Hread; cbn [bind];
    (do 3 (split; [reflexivity|])); intros ->; by rewrite ?Hread.
Qed.

Lemma body_read_failure_propagates_witness :
  let malformed := mkRequest [("content-type", "application/json")] []
                     (Rejected (VError "SyntaxError" "Unexpected end of JSON input"))
                     (Resolved []) in
  parseBodyWithDefault default_config malformed zod_unknown (VStr "default")
    = Rejected (VError "SyntaxError" "Unexpected end of JSON input").
Proof.
  intros malformed.
  destruct (body_read_failure_propagates default_config malformed zod_unknown
              (VStr "default") (VError "SyntaxError" "Unexpected end of JSON input"))
    as [Hjson _].
  destruct (Hjson eq_refl) as (_ & _ & _ & Hbody).
  destruct (Hbody eq_refl) as (_ & _ & Hdefault). exact Hdefault.
Defined.

Lemma parseBody_read cfg request schema :
  parseBody cfg request schema = bind (body_read cfg request) (parseOrThrow cfg schema).
Proof.
  unfold parseBody, body_read, parseJson, parseForm.
  destruct (getBodyEncoding request); [done| |done].
  by destruct (request_formData request).
Qed.

Lemma parseBodySafe_read cfg request schema :
  parseBodySafe cfg request schema = bind (body_read cfg request) (safeParseAsync schema).
Proof.
  unfold parseBodySafe, body_read, parseJsonSafe, parseFormSafe.
  destruct (getBodyEncoding request); [done| |done].
  by destruct (request_formData request).
Qed.


Lemma bind_assoc {A B C : Type} (c : completion A JsValue)
    (f : A -> completion B JsValue) (g : B -> completion C JsValue) :
  bind (bind c f) g = bind c (fun a => bind (f a) g).
Proof. by destruct c. Qed.


Lemma shapes_agree_bind cfg schema (input : Promise JsValue) :
  shapes_agree cfg (bind input (parseOrThrow cfg schema))
                   (bind input (safeParseAsync schema)).
Proof.
  unfold shapes_agree. destruct input as [value|reason]; cbn [bind].
  - unfold parseOrThrow, parseAsync, safeParseAsync, throwBadRequest.
    destruct (schema value); split; intros; try split; intros; congruence.
  - split; intros; try split; intros; congruence.
Qed.

(** The throwing and the safe shape read the same source and run the same
    schema: for each of the six sources the throwing parser resolves with
    some data exactly when the safe parser resolves with the success tag
    around the same data, and whenever the safe parser resolves with a
    failure tag the throwing parser rejects with the bad request. *)
Theorem throwing_agrees_with_safe (cfg : Config) (schema : ZodType) :
  (forall request,
     shapes_agree cfg (parseJson cfg request schema) (parseJsonSafe request schema)) /\
  (forall request,
     shapes_agree cfg (parseForm cfg request schema) (parseFormSafe request schema)) /\
  (forall request,
     shapes_agree cfg (parseBody cfg request schema) (parseBodySafe cfg request schema)) /\
  (forall params,
     shapes_agree cfg (parseParams cfg params schema) (parseParamsSafe params schema)) /\
  (forall request,
     shapes_agree cfg (parseQuery cfg request schema) (parseQuerySafe request schema)) /\
  (forall headers,
     shapes_agree cfg (parseHeaders cfg headers schema) (parseHeadersSafe headers schema)).
Proof.
  split; [|split; [|split; [|split; [|split]]]].
  - intros request. apply shapes_agree_bind.
  - intros request. unfold parseForm, parseFormSafe.
    pose proof (shapes_agree_bind cfg schema
      (let! body := request_formData request in
       Resolved (object_value (formToObject body)))) as H.
    by rewrite !bind_assoc in H.
  - intros request. rewrite parseBody_read, parseBodySafe_read. apply shapes_agree_bind.
  - intros params. apply (shapes_agree_bind cfg schema (Resolved params)).
  - intros request. rewrite parseQuery_input, parseQuerySafe_input.
    apply (shapes_agree_bind cfg schema (Resolved (query_input request))).
  - intros headers.
    apply (shapes_agree_bind cfg schema (Resolved (object_value (headersToObject headers)))).
Qed.

(** ** Loader and action binders, all outcomes *)

(** The loader binder.  Path parameters are validated first, then the
    query folded from the request URL; headers and body of the request
    play no part.  The wrapped loader is invoked exactly once, with the
    original arguments extended by the two parsed values, when both
    schemas let their input through, and its promise is returned, settled
    either way; otherwise it is not invoked and the bad request is
    raised.  Nothing else can happen, and with both schemas left out the
    loader is always invoked. *)
Theorem zodLoader_outcomes (cfg : Config) (params query : option ZodType)
    (loader : ZodLoaderFunctionArgs -> Promise JsValue) (args : LoaderFunctionArgs) :
  let folded_query :=
    object_value (searchParamsToObject (request_searchParams (args_request args))) in
  (forall pp pq,
     accepts (schema_or_unknown params) (args_params args) pp ->
     accepts (schema_or_unknown query) folded_query pq ->
     zodLoader cfg params query loader args
       = mkInvocation [mkLoaderArgs args pp pq] (loader (mkLoaderArgs args pp pq))) /\
  ((forall pp, ~ accepts (schema_or_unknown params) (args_params args) pp) \/
   (forall pq, ~ accepts (schema_or_unknown query) folded_query pq) ->
     zodLoader cfg params query loader args
       = mkInvocation [] (Rejected (BadRequest cfg))) /\
  ((exists zargs, zodLoader cfg params query loader args
                    = mkInvocation [zargs] (loader zargs)) \/
   zodLoader cfg params query loader args = mkInvocation [] (Rejected (BadRequest cfg))) /\
  zodLoader cfg None None loader args
    = mkInvocation [mkLoaderArgs args (args_params args) folded_query]
        (loader (mkLoaderArgs args (args_params args) folded_query)).
Proof.
  intros folded_query. unfold zodLoader, parseParams, parseQuery, accepts.
  fold folded_query.
  unfold parseOrThrow, parseAsync, throwBadRequest.
  split; [|split; [|split]].
  - intros pp pq -> ->. done.
  - intros [Hp|Hq].
    + destruct (schema_or_unknown params (args_params args)) as [pp| |]; [|done..].
      by destruct (Hp pp).
    + destruct (schema_or_unknown params (args_params args)) as [pp| |]; [|done..].
      destruct (schema_or_unknown query folded_query) as [pq| |]; [|done..].
      by destruct (Hq pq).
  - destruct (schema_or_unknown params (args_params args)) as [pp| |]; [|by right..].
    destruct (schema_or_unknown query folded_query) as [pq| |]; [|by right..].
    left. by eexists.
  - done.
Qed.

Lemma zodLoader_outcomes_witness :
  let request := mkRequest [] [("name", "a"); ("tag", "x"); ("tag", "y")]
                   (Resolved VNull) (Resolved []) in
  let args := mkArgs request (VObj ∅ None) VNull in
  let folded_query := object_value (searchParamsToObject (request_searchParams request)) in
  zodLoader default_config None (Some name_schema)
    (fun zargs => Resolved (parsedQuery zargs)) args
  = mkInvocation [mkLoaderArgs args (VObj ∅ None) folded_query] (Resolved folded_query).
Proof.
  intros request args folded_query.
  apply (proj1 (zodLoader_outcomes default_config None (Some name_schema)
                  (fun zargs => Resolved (parsedQuery zargs)) args)
           (VObj ∅ None) folded_query).
  - reflexivity.
  - vm_compute. reflexivity.
Defined.

(** The action binder, all outcomes.  Path parameters are validated
    before the body is looked at.  There are three ways a call can end:
    the wrapped action was invoked exactly once and its promise is
    returned as it is; or it was not invoked and the bad request is raised;
    or it was not invoked and the call rejects with the reason for which
    the body could not be read as JSON or as form data.  When the params
    schema does not accept, the bad request is raised whatever the body
    is. *)
Theorem zodAction_outcomes (cfg : Config) (params body : option ZodType)
    (action : ZodActionFunctionArgs -> Promise JsValue) (args : ActionFunctionArgs) :
  ((exists zargs, action_args zargs = args /\
      zodAction cfg params body action args = mkInvocation [zargs] (action zargs)) \/
   zodAction cfg params body action args = mkInvocation [] (Rejected (BadRequest cfg)) \/
   (exists reason,
      (request_json (args_request args) = Rejected reason \/
       request_formData (args_request args) = Rejected reason) /\
      zodAction cfg params body action args = mkInvocation [] (Rejected reason))) /\
  ((forall pp, ~ accepts (schema_or_unknown params) (args_params args) pp) ->
     zodAction cfg params body action args = mkInvocation [] (Rejected (BadRequest cfg))) /\
  (forall pp reason,
     accepts (schema_or_unknown params) (args_params args) pp ->
     body_read cfg (args_request args) = Rejected reason ->
     zodAction cfg params body action args = mkInvocation [] (Rejected reason)).
Proof.
  unfold zodAction, parseParams, accepts. split; [|split].
  - destruct (parseOrThrow_cases cfg (schema_or_unknown params) (args_params args))
      as [[pp ->]| ->]; [|by right; left].
    rewrite parseBody_read. unfold body_read.
    destruct (getBodyEncoding (args_request args)).
    + destruct (request_json (args_request args)) as [value|reason] eqn:Hread; cbn [bind].
      * destruct (parseOrThrow_cases cfg (schema_or_unknown body) value)
          as [[pb ->]| ->];
          [left; by exists (mkActionArgs args pp pb) | by right; left].
      * right; right. exists reason. by split; [left|].
    + destruct (request_formData (args_request args)) as [form|reason] eqn:Hread; cbn [bind].
      * destruct (parseOrThrow_cases cfg (schema_or_unknown body)
                    (object_value (formToObject form)))
          as [[pb ->]| ->];
          [left; by exists (mkActionArgs args pp pb) | by right; left].
      * right; right. exists reason. by split; [right|].
    + by right; left.
  - intros Hp. unfold parseOrThrow, parseAsync.
    destruct (schema_or_unknown params (args_params args)) as [pp| |]; [|done..].
    by destruct (Hp pp).
  - intros pp reason Hp Hread.
    rewrite (parseOrThrow_accepts _ _ _ _ Hp), parseBody_read, Hread. done.
Qed.

Lemma zodAction_outcomes_witness :
  let malformed := mkRequest [("content-type", "application/json")] []
                     (Rejected (VError "SyntaxError" "Unexpected end of JSON input"))
                     (Resolved []) in
  zodAction default_config None (Some name_schema) echo_handler
    (mkArgs malformed (VObj ∅ None) VNull)
  = mkInvocation [] (Rejected (VError "SyntaxError" "Unexpected end of JSON input")).
Proof.
  intros malformed.
  apply (proj2 (proj2 (zodAction_outcomes default_config None (Some name_schema)
                         echo_handler (mkArgs malformed (VObj ∅ None) VNull)))
           (VObj ∅ None)); reflexivity.
Defined.

(** ** [split] *)

Lemma split_nonempty sep s : exists piece pieces, split sep s = piece :: pieces.
Proof.
  destruct s as [|c s]; cbn [split]; [by eexists _, _|].
  destruct (Ascii.eqb c sep); [by eexists _, _|].
  destruct (split sep s); by eexists _, _.
Qed.

Lemma has_char_cons c d s : has_char c (String d s) <-> d = c \/ has_char c s.
Proof. reflexivity. Qed.

Lemma append_cons c s t : String c s +:+ t = String c (s +:+ t).
Proof. reflexivity. Qed.

Lemma append_empty_l t : "" +:+ t = t.
Proof. reflexivity. Qed.

Lemma has_char_app c s t : has_char c (s +:+ t) <-> has_char c s \/ has_char c t.
Proof.
  induction s as [|d s IH].
  - rewrite append_empty_l. unfold has_char at 2. cbn. tauto.
  - rewrite append_cons, !has_char_cons, IH. tauto.
Qed.

(** A string without the separator is a single piece, and it prefixes the
    first piece of whatever follows it. *)
Lemma split_app sep a b :
  ~ has_char sep a ->
  split sep (a +:+ b) =
    match split sep b with
    | piece :: pieces => (a +:+ piece) :: pieces
    | [] => [a]
    end.
Proof.
  induction a as [|c a IH]; intros Hno.
  - rewrite append_empty_l.
    by destruct (split_nonempty sep b) as (piece & pieces & ->).
  - rewrite has_char_cons in Hno. rewrite append_cons.
    cbn [split]. destruct (Ascii.eqb_spec c sep) as [->|Hne]; [tauto|].
    rewrite IH by tauto.
    by destruct (split_nonempty sep b) as (piece & pieces & ->).
Qed.

Lemma split_none sep s : ~ has_char sep s -> split sep s = [s].
Proof.
  intros Hno. pose proof (split_app sep s "" Hno) as H.
  assert (s +:+ "" = s) as Hs
    by (clear; induction s as [|c s IH]; [done | by rewrite append_cons, IH]).
  rewrite Hs in H. rewrite H. cbn [split]. by rewrite Hs.
Qed.

Lemma split_sep sep s : split sep (String sep s) = "" :: split sep s.
Proof. cbn [split]. by rewrite Ascii.eqb_refl. Qed.

Lemma append_empty_r s : s +:+ "" = s.
Proof. induction s as [|c s IH]; [done | by rewrite append_cons, IH]. Qed.

(** ** [zx.base64File] *)

(** Strings without a comma.  [zx.base64File] reads the payload after the
    first comma; a string that has none, plain base64 text included, makes
    the preprocessor throw, so that no such string is ever accepted: the
    throwing shape answers with the bad request and the safe shape
    rejects. *)
Theorem base64File_without_comma (opts : FileOptions) (cfg : Config) (s : string) :
  ~ has_char "," s ->
  base64File_preprocess (VStr s) = Throw InvalidCharacterError /\
  zx_base64File opts (VStr s) = Threw InvalidCharacterError /\
  parseOrThrow cfg (zx_base64File opts) (VStr s) = Rejected (BadRequest cfg) /\
  safeParseAsync (zx_base64File opts) (VStr s) = Rejected InvalidCharacterError.
Proof.
  intros Hno.
  assert (base64File_preprocess (VStr s) = Throw InvalidCharacterError) as Hpre.
  { unfold base64File_preprocess. by rewrite (split_none _ _ Hno). }
  split; [exact Hpre|].
  destruct (base64File_preprocess_throw opts (VStr s) InvalidCharacterError cfg VNull Hpre)
    as (Hrun & Hthrow & Hsafe & _).
  done.
Qed.

Lemma base64File_without_comma_witness :
  zx_base64File no_options (VStr "aGVsbG8=") = Threw InvalidCharacterError.
Proof.
  apply (base64File_without_comma no_options default_config "aGVsbG8=").
  unfold has_char. cbn. intros H. repeat (destruct H as [H|H]; [discriminate H|]). exact H.
Defined.

Lemma append_assoc s t u : (s +:+ t) +:+ u = s +:+ t +:+ u.
Proof. induction s as [|c s IH]; [done | by rewrite !append_cons, IH]. Qed.

Lemma media_type_piece mime tail :
  ~ has_char ":" mime -> ~ has_char ";" mime ->
  tail = "" \/ (exists t, tail = String ";" t) ->
  exists rest pieces,
    split ":" (mime +:+ tail) = rest :: pieces /\
    split ";" rest !! 0%nat = Some mime.
Proof.
  intros Hcolon Hsemi [->|[t ->]].
  - rewrite append_empty_r, (split_none _ _ Hcolon).
    eexists _, _. split; [reflexivity|]. by rewrite (split_none _ _ Hsemi).
  - rewrite (split_app ":" mime _ Hcolon). cbn [split].
    change (Ascii.eqb ";" ":") with false.
    destruct (split_nonempty ":" t) as (piece & pieces & ->).
    eexists _, _. split; [reflexivity|].
    rewrite (split_app ";" mime _ Hsemi), split_sep. cbn. by rewrite append_empty_r.
Qed.

(** Data URIs.  For a string [scheme:mime,payload] or
    [scheme:mime;params,payload] whose payload [atob] decodes, the
    preprocessor builds a file named [file.<subtype>] whose type is the
    media type in lower case and whose size is the number of decoded
    bytes, and the schema then answers as [zx.file] does on that file.
    Neither the scheme nor the parameters are looked at: the scheme need
    not be [data], and the payload is decoded as base64 whether or not the
    parameters say [base64]. *)
Theorem base64File_data_uri_decodes (opts : FileOptions)
    (scheme mime tail payload bytes : string) :
  ~ has_char "," scheme -> ~ has_char ":" scheme ->
  ~ has_char "," mime -> ~ has_char ":" mime -> ~ has_char ";" mime ->
  tail = "" \/ (exists t, tail = String ";" t) -> ~ has_char "," tail ->
  ~ has_char "," payload ->
  atob payload = Return bytes ->
  let uri := scheme +:+ ":" +:+ mime +:+ tail +:+ "," +:+ payload in
  let file := mkFile ("file." +:+ ToString (split "/" mime !! 1%nat)) (Blob_type mime)
                     (Z.of_nat (String.length bytes)) in
  base64File_preprocess (VStr uri) = Return (VFile file) /\
  zx_base64File opts (VStr uri) = zx_file opts (VFile file).
Proof.
  intros Hs1 Hs2 Hm1 Hm2 Hm3 Htail Ht1 Hp1 Hatob uri file.
  assert (split "," uri = [scheme +:+ ":" +:+ mime +:+ tail; payload]) as Hcomma.
  { subst uri.
    replace (scheme +:+ ":" +:+ mime +:+ tail +:+ "," +:+ payload)
      with ((scheme +:+ ":" +:+ mime +:+ tail) +:+ "," +:+ payload)
      by (by rewrite !append_assoc).
    rewrite split_app.
    - change ("," +:+ payload) with (String "," payload).
      rewrite split_sep, (split_none _ _ Hp1). by rewrite append_empty_r.
    - rewrite !has_char_app. unfold has_char at 2. cbn. intuition congruence. }
  assert (exists rest pieces,
            split ":" (scheme +:+ ":" +:+ mime +:+ tail) = scheme :: rest :: pieces /\
            split ";" rest !! 0%nat = Some mime) as (rest & pieces & Hcolon & Hsemi).
  { destruct (media_type_piece mime tail Hm2 Hm3 Htail) as (rest & pieces & Hr & Hsemi).
    exists rest, pieces. split; [|exact Hsemi].
    rewrite (split_app ":" scheme _ Hs2).
    change (":" +:+ mime +:+ tail) with (String ":" (mime +:+ tail)).
    by rewrite split_sep, Hr, append_empty_r. }
  assert (base64File_preprocess (VStr uri) = Return (VFile file)) as Hpre.
  { unfold base64File_preprocess. rewrite Hcomma. cbn [lookup list_lookup ToString].
    rewrite Hatob. cbn [bind]. rewrite Hcolon. cbn [lookup list_lookup].
    rewrite Hsemi. reflexivity. }
  split; [exact Hpre|].
  unfold zx_base64File, zod_preprocess. by rewrite Hpre.
Qed.

Lemma base64File_data_uri_decodes_witness :
  zx_base64File one_megabyte (VStr "data:image/PNG;base64,aGVsbG8=")
  = Valid (VFile (mkFile "file.PNG" "image/png" 5)).
Proof.
  etransitivity.
  - exact (proj2 (base64File_data_uri_decodes one_megabyte
                    "data" "image/PNG" ";base64" "aGVsbG8=" "hello"
                    ltac:(vm_compute; intuition discriminate)
                    ltac:(vm_compute; intuition discriminate)
                    ltac:(vm_compute; intuition discriminate)
                    ltac:(vm_compute; intuition discriminate)
                    ltac:(vm_compute; intuition discriminate)
                    ltac:(right; by eexists)
                    ltac:(vm_compute; intuition discriminate)
                    ltac:(vm_compute; intuition discriminate)
                    eq_refl)).
  - reflexivity.
Defined.

(** Values that are neither strings nor files.  The preprocessor throws
    on them, so they are not reported as validation issues: the safe shape
    rejects with the thrown error.  A file is handed to [zx.file]
    unchanged. *)
Theorem base64File_other_values (opts : FileOptions) (cfg : Config) (val : JsValue) :
  (forall s, val <> VStr s) -> (forall f, val <> VFile f) ->
  let thrown := VError "Error" "Value must be a string" in
  zx_base64File opts val = Threw thrown /\
  safeParseAsync (zx_base64File opts) val = Rejected thrown /\
  parseOrThrow cfg (zx_base64File opts) val = Rejected (BadRequest cfg) /\
  (forall f, zx_base64File opts (VFile f) = zx_file opts (VFile f)).
Proof.
  intros Hs Hf thrown.
  assert (base64File_preprocess val = Throw thrown) as Hpre.
  { destruct val; try reflexivity; [by destruct (Hs s) | by destruct (Hf f)]. }
  destruct (base64File_preprocess_throw opts val thrown cfg VNull Hpre)
    as (Hrun & Hthrow & Hsafe & _).
  done.
Qed.

Lemma base64File_other_values_witness :
  safeParseAsync (zx_base64File no_options) (VNum 5)
    = Rejected (VError "Error" "Value must be a string").
Proof.
  apply (base64File_other_values no_options default_config (VNum 5)); discriminate.
Defined.

(** ** [zx.base64] *)

Example base64_accepts_plain : zx_base64 (VStr "aGVsbG8=") = Valid (VStr "aGVsbG8=").
Proof. reflexivity. Qed.

Example base64_accepts_data_uri :
  zx_base64 (VStr "data:text/plain;base64,aGVsbG8=")
  = Valid (VStr "data:text/plain;base64,aGVsbG8=").
Proof. reflexivity. Qed.

Example base64_rejects_other :
  zx_base64 (VStr "not base64!!") = Invalid (ZodError "Invalid input").
Proof. reflexivity. Qed.

(** [zx.base64] never throws and never changes the value: it accepts the
    value as it is or reports an issue.  It reports an issue for every
    value that is not a string.  A string that does not start with
    [data:] is accepted exactly when [atob] decodes the whole string; one
    that does, exactly when [atob] decodes what lies between the first and
    the second comma.  Every string starting with [data:] that the
    preprocessor of [zx.base64File] can turn into a file is accepted. *)
Theorem base64_decides :
  (forall val, zx_base64 val = Valid val \/ zx_base64 val = Invalid (ZodError "Invalid input")
               \/ zx_base64 val = Invalid (ZodError "Expected string")) /\
  (forall val, (forall s, val <> VStr s) ->
     zx_base64 val = Invalid (ZodError "Expected string")) /\
  (forall s, String.prefix "data:" s = false ->
     (zx_base64 (VStr s) = Valid (VStr s) <-> exists bytes, atob s = Return bytes)) /\
  (forall s, String.prefix "data:" s = true ->
     (zx_base64 (VStr s) = Valid (VStr s) <->
      exists bytes, atob (ToString (split "," s !! 1%nat)) = Return bytes)) /\
  (forall s file, String.prefix "data:" s = true ->
     base64File_preprocess (VStr s) = Return file ->
     zx_base64 (VStr s) = Valid (VStr s)).
Proof.
  assert (forall s payload,
            payload = (if String.prefix "data:" s then split "," s !! 1%nat else Some s) ->
            (zx_base64 (VStr s) = Valid (VStr s) <->
             exists bytes, atob (ToString payload) = Return bytes)) as Hstr.
  { intros s payload ->. unfold zx_base64, zod_refine, zod_string, base64_check.
    destruct (atob _) as [bytes|exn]; split; try done; [by eexists | by intros [? ?]]. }
  split; [|split; [|split; [|split]]].
  - intros val. destruct val; try (right; right; reflexivity).
    unfold zx_base64, zod_refine, zod_string, base64_check.
    destruct (atob _); auto.
  - intros val Hs. destruct val; try reflexivity. by destruct (Hs s).
  - intros s Hp. rewrite (Hstr s (Some s)); [done | by rewrite Hp].
  - intros s Hp. apply Hstr. by rewrite Hp.
  - intros s file Hp Hpre. apply (Hstr s (split "," s !! 1%nat)); [by rewrite Hp|].
    unfold base64File_preprocess in Hpre.
    destruct (atob (ToString (split "," s !! 1%nat))) as [bytes|exn]; [by eexists | done].
Qed.

Lemma base64_decides_witness :
  zx_base64 (VStr "YQ") = Valid (VStr "YQ").
Proof.
  destruct base64_decides as (_ & _ & Hplain & _).
  apply (Hplain "YQ"); [reflexivity|]. by exists "a".
Defined.

(** ** [zx.stringBoolean] *)

(** [zx.stringBoolean] turns the string ["true"] into [true] and the
    string ["false"] into [false]; every other value, whether another
    string or not a string at all, is reported as an issue.  It never
    throws. *)
Theorem stringBoolean_decides (val : JsValue) :
  (val = VStr "true" -> zx_stringBoolean val = Valid (VBool true)) /\
  (val = VStr "false" -> zx_stringBoolean val = Valid (VBool false)) /\
  (val <> VStr "true" -> val <> VStr "false" ->
     zx_stringBoolean val = Invalid (ZodError "Value must be a boolean") \/
     zx_stringBoolean val = Invalid (ZodError "Expected string")) /\
  (forall data, zx_stringBoolean val = Valid data ->
     (val = VStr "true" /\ data = VBool true) \/ (val = VStr "false" /\ data = VBool false)).
Proof.
  split; [by intros ->|]. split; [by intros ->|].
  assert (forall s, zx_stringBoolean (VStr s) =
            if String.eqb s "true" then Valid (VBool true)
            else if String.eqb s "false" then Valid (VBool false)
            else Invalid (ZodError "Value must be a boolean")) as Hstr.
  { intros s. unfold zx_stringBoolean, zod_transform, zod_refine, zod_string.
    cbn [is_string].
    destruct (String.eqb s "true") eqn:Ht, (String.eqb s "false") eqn:Hf;
      cbn [orb is_string]; by rewrite ?Ht. }
  split.
  - intros Ht Hf. destruct val; try (right; reflexivity).
    left. rewrite Hstr.
    destruct (String.eqb_spec s "true") as [->|_]; [done|].
    by destruct (String.eqb_spec s "false") as [->|_].
  - intros data. destruct val; try discriminate.
    rewrite Hstr.
    destruct (String.eqb_spec s "true") as [->|_]; [intros [= <-]; by left|].
    destruct (String.eqb_spec s "false") as [->|_]; [intros [= <-]; by right|].
    discriminate.
Qed.

Lemma stringBoolean_decides_witness :
  zx_stringBoolean (VStr "True") = Invalid (ZodError "Value must be a boolean") \/
  zx_stringBoolean (VStr "True") = Invalid (ZodError "Expected string").
Proof.
  apply (stringBoolean_decides (VStr "True")); discriminate.
Defined.

(** ** [zx.files] *)

Lemma zx_file_runs_clean opts val :
  well_formed_size (minimumSize opts) -> well_formed_size (maximumSize opts) ->
  zx_file opts val = Valid val \/ zx_file opts val = Invalid (ZodError "Invalid input").
Proof.
  intros Hlo Hhi. unfold zx_file, zod_custom.
  destruct val; try (right; reflexivity).
  rewrite file_check_mimetype.
  destruct (file_check_sizes (without_mimetype opts) f Hlo Hhi eq_refl) as (b & Hb & _).
  destruct (mimetype_given (mimetype opts)) as [[s|l]|].
  - destruct (String.eqb (file_type f) s); [|by right]. rewrite Hb. destruct b; auto.
  - destruct (mem (file_type f) l); [|by right]. rewrite Hb. destruct b; auto.
  - rewrite Hb. destruct b; auto.
Qed.

Lemma zod_array_elements_all schema elems :
  Forall (fun elem => schema elem = Valid elem \/ exists error, schema elem = Invalid error)
         elems ->
  exists parsed, zod_array_elements schema elems = Return parsed /\
                 (parsed = Some elems \/ parsed = None) /\
                 (parsed = Some elems <-> Forall (fun elem => schema elem = Valid elem) elems).
Proof.
  induction 1 as [|elem elems Helem _ (parsed & Hrun & Hcases & Hiff)].
  - exists (Some []). split; [done|]. split; [by left|]. split; [by constructor | done].
  - cbn [zod_array_elements]. rewrite Hrun.
    destruct Helem as [Hv|[error He]].
    + rewrite Hv. cbn [bind]. destruct Hcases as [->| ->].
      * exists (Some (elem :: elems)). split; [done|]. split; [by left|].
        split; [intros _; constructor; [done | by apply Hiff] | done].
      * exists None. split; [done|]. split; [by right|].
        split; [done|]. intros Hall. apply Forall_cons in Hall as [_ Hall].
        by apply Hiff in Hall.
    + rewrite He. cbn [bind]. exists None. split; [by destruct parsed|].
      split; [by right|]. split; [done|].
      intros Hall. apply Forall_cons in Hall as [Hv _]. congruence.
Qed.

(** [zx.files] is [zod.array] of [zx.file] and nothing more.  For options
    with enumerated size units it accepts an array exactly when [zx.file]
    accepts each of its elements, and then leaves it unchanged; otherwise
    it reports an issue, as it does for a value that is not an array.  The
    number of elements plays no part, whatever [minimumFiles] and
    [maximumFiles] say: the empty array is always accepted. *)
Theorem zx_files_elementwise (opts : FilesOptions) :
  well_formed_size (files_minimumSize opts) -> well_formed_size (files_maximumSize opts) ->
  (forall elems,
     (zx_files opts (VArr elems) = Valid (VArr elems) <->
      Forall (fun elem => zx_file (files_file_options opts) elem = Valid elem) elems) /\
     (zx_files opts (VArr elems) = Valid (VArr elems) \/
      zx_files opts (VArr elems) = Invalid (ZodError "Invalid array"))) /\
  zx_files opts (VArr []) = Valid (VArr []) /\
  (forall val, (forall elems, val <> VArr elems) ->
     zx_files opts val = Invalid (ZodError "Expected array")).
Proof.
  intros Hlo Hhi. split; [|split].
  - intros elems. unfold zx_files, zod_array. fold (files_file_options opts).
    destruct (zod_array_elements_all (zx_file (files_file_options opts)) elems)
      as (parsed & Hrun & Hcases & Hiff).
    { apply Forall_forall. intros elem _.
      destruct (zx_file_runs_clean (files_file_options opts) elem Hlo Hhi); eauto. }
    rewrite Hrun. destruct Hcases as [->| ->].
    + split; [|by left]. split; [intros _; by apply Hiff | done].
    + split; [|by right]. split; [done|]. intros Hall. by apply Hiff in Hall.
  - reflexivity.
  - intros val Hval. destruct val; try reflexivity. by destruct (Hval elems).
Qed.

Lemma zx_files_elementwise_witness :
  let opts := mkFilesOptions (Some 1%Q) (Some 1%Q) None (Some (mkFileSize 1 "KB")) None in
  let files := [VFile (mkFile "a" "x/y" 10); VFile (mkFile "b" "x/y" 1024)] in
  zx_files opts (VArr files) = Valid (VArr files) /\
  zx_files opts (VArr []) = Valid (VArr []).
Proof.
  intros opts files.
  assert (well_formed_size (files_minimumSize opts)) as Hlo by exact I.
  assert (well_formed_size (files_maximumSize opts)) as Hhi
    by (cbn; unfold enumerated_unit; cbn; tauto).
  destruct (zx_files_elementwise opts Hlo Hhi) as (Helems & Hempty & _).
  split; [|exact Hempty].
  apply Helems. repeat constructor.
Defined.

(** ** [zx.file]: unit errors and empty ranges *)

Lemma file_check_after_mimetype opts f :
  mime_passes (mimetype opts) (file_type f) ->
  file_check opts (VFile f) = file_check (without_mimetype opts) (VFile f).
Proof.
  unfold mime_passes. rewrite file_check_mimetype.
  destruct (mimetype_given (mimetype opts)) as [[s|l]|]; [| |done].
  - intros ->. by rewrite String.eqb_refl.
  - intros Hin. apply mem_In in Hin. by rewrite Hin.
Qed.

Lemma file_check_mimetype_fails opts f :
  ~ mime_passes (mimetype opts) (file_type f) ->
  file_check opts (VFile f) = Return false.
Proof.
  unfold mime_passes. rewrite file_check_mimetype.
  destruct (mimetype_given (mimetype opts)) as [[s|l]|]; [| |done].
  - intros Hne. by destruct (String.eqb_spec (file_type f) s).
  - intros Hin. destruct (mem (file_type f) l) eqn:Hmem; [|done].
    apply mem_In in Hmem. done.
Qed.

(** A unit tag outside the enumerated set is noticed only when the size
    test is reached.  With such a tag in [minimumSize], a file that passes
    the MIME test makes the predicate throw the unit error: the safe shape
    rejects with it, the throwing shape answers with the bad request.  A
    file that fails the MIME test, and any value that is not a file, is
    reported as an ordinary issue, the tag unnoticed. *)
Theorem zx_file_invalid_unit (opts : FileOptions) (cfg : Config) (minimum : FileSize) :
  minimumSize opts = Some minimum -> ~ enumerated_unit (size_unit minimum) ->
  (forall f, mime_passes (mimetype opts) (file_type f) ->
     zx_file opts (VFile f) = Threw InvalidUnit /\
     safeParseAsync (zx_file opts) (VFile f) = Rejected InvalidUnit /\
     parseOrThrow cfg (zx_file opts) (VFile f) = Rejected (BadRequest cfg)) /\
  (forall f, ~ mime_passes (mimetype opts) (file_type f) ->
     zx_file opts (VFile f) = Invalid (ZodError "Invalid input")) /\
  (forall val, (forall f, val <> VFile f) ->
     zx_file opts val = Invalid (ZodError "Invalid input")).
Proof.
  intros Hmin Hunit.
  assert (convertToBytes minimum = Throw InvalidUnit) as Hconv.
  { destruct minimum as [value unit]. by apply convertToBytes_invalid. }
  split; [|split].
  - intros f Hmime.
    assert (zx_file opts (VFile f) = Threw InvalidUnit) as Hrun.
    { unfold zx_file, zod_custom. rewrite (file_check_after_mimetype opts f Hmime).
      unfold file_check, without_mimetype. cbn [mimetype mimetype_given minimumSize].
      by rewrite Hmin, Hconv. }
    unfold safeParseAsync, parseOrThrow, parseAsync. by rewrite Hrun.
  - intros f Hmime. unfold zx_file, zod_custom.
    by rewrite (file_check_mimetype_fails opts f Hmime).
  - intros val Hval. destruct val; try reflexivity. by destruct (Hval f).
Qed.

Lemma zx_file_invalid_unit_witness :
  safeParseAsync (zx_file (mkFileOptions (Some (mkFileSize 1 "kb")) None None))
                 (VFile (mkFile "a" "x/y" 10))
  = Rejected InvalidUnit.
Proof.
  apply (zx_file_invalid_unit (mkFileOptions (Some (mkFileSize 1 "kb")) None None)
           default_config (mkFileSize 1 "kb") eq_refl).
  - unfold enumerated_unit. cbn [In size_unit].
    intros H. repeat (destruct H as [H|H]; [discriminate H|]). exact H.
  - exact I.
Defined.

(** An empty size range.  When the minimum converts to more bytes than
    the maximum, [zx.file] accepts no value at all. *)
Theorem zx_file_empty_range (opts : FileOptions) (minimum maximum : FileSize)
    (low high : Q) (val : JsValue) :
  minimumSize opts = Some minimum -> maximumSize opts = Some maximum ->
  convertToBytes minimum = Return low -> convertToBytes maximum = Return high ->
  (high < low)%Q ->
  zx_file opts val = Invalid (ZodError "Invalid input").
Proof.
  intros Hmin Hmax Hlow Hhigh Hlt. unfold zx_file, zod_custom.
  destruct val; try reflexivity.
  rewrite file_check_mimetype.
  assert (file_check (without_mimetype opts) (VFile f) = Return false) as Hsize.
  { unfold file_check, without_mimetype. cbn [mimetype mimetype_given minimumSize maximumSize].
    rewrite Hmin, Hmax, Hlow, Hhigh. cbn [bind].
    destruct (Qltb (inject_Z (file_size f)) low) eqn:Hbelow; [done|].
    apply Qltb_false in Hbelow.
    assert (Qltb high (inject_Z (file_size f)) = true) as ->; [|done].
    apply Qltb_true. intros Hle.
    apply (Qlt_irrefl low). eapply Qle_lt_trans; [|exact Hlt].
    eapply Qle_trans; eassumption. }
  destruct (mimetype_given (mimetype opts)) as [[s|l]|].
  - destruct (String.eqb (file_type f) s); [by rewrite Hsize | done].
  - destruct (mem (file_type f) l); [by rewrite Hsize | done].
  - by rewrite Hsize.
Qed.

Lemma zx_file_empty_range_witness :
  zx_file (mkFileOptions (Some (mkFileSize 1 "MB")) (Some (mkFileSize 1 "KB")) None)
          (VFile (mkFile "a" "x/y" 2048))
  = Invalid (ZodError "Invalid input").
Proof.
  apply (zx_file_empty_range _ (mkFileSize 1 "MB") (mkFileSize 1 "KB")
           (1 * 1024 * 1024)%Q (1 * 1024)%Q); reflexivity.
Defined.

(** ** [convertToBytes]: order of the units *)

(** For a non-negative value a larger unit never gives fewer bytes:
    bytes, kilobytes, megabytes, gigabytes and terabytes of the same value
    are in ascending order.  (For a negative value the order is the
    reverse; the converter does not refuse negative values.) *)
Theorem convertToBytes_unit_order (value : Q) (unit unit' : string) (k k' : Z)
    (bytes bytes' : Q) :
  (0 <= value)%Q ->
  unit_exponent unit = Some k -> unit_exponent unit' = Some k' -> (k <= k')%Z ->
  convertToBytes (mkFileSize value unit) = Return bytes ->
  convertToBytes (mkFileSize value unit') = Return bytes' ->
  (bytes <= bytes')%Q.
Proof.
  intros Hpos Hk Hk' Hle Hb Hb'.
  destruct (convertToBytes_power value unit k Hk) as (b & Hb1 & Hbeq).
  destruct (convertToBytes_power value unit' k' Hk') as (b' & Hb1' & Hbeq').
  assert (b = bytes) as -> by congruence. assert (b' = bytes') as -> by congruence.
  rewrite Hbeq, Hbeq'.
  assert (forall j, unit_exponent unit = Some j \/ unit_exponent unit' = Some j ->
            (j = 0 \/ j = 1 \/ j = 2 \/ j = 3 \/ j = 4)%Z) as Hrange.
  { intros j [Hj|Hj]; revert Hj; unfold unit_exponent; cbn [List.find fst snd];
      repeat match goal with
      | |- context [String.eqb ?u ?t] => destruct (String.eqb u t)
      end; cbn; intros [= <-]; tauto. }
  pose proof (Hrange k (or_introl Hk)) as Hk_range.
  pose proof (Hrange k' (or_intror Hk')) as Hk'_range.
  rewrite (Qmult_comm value (1024 ^ k)), (Qmult_comm value (1024 ^ k')).
  apply Qmult_le_compat_r; [|exact Hpos].
  destruct Hk_range as [->|[->|[->|[->| ->]]]];
    destruct Hk'_range as [->|[->|[->|[->| ->]]]];
    try lia; vm_compute; discriminate.
Qed.

Lemma convertToBytes_unit_order_witness :
  exists bytes bytes',
    convertToBytes (mkFileSize 3 "KB") = Return bytes /\
    convertToBytes (mkFileSize 3 "GB") = Return bytes' /\
    (bytes <= bytes')%Q.
Proof.
  exists (3 * 1024)%Q, (3 * 1024 * 1024 * 1024)%Q.
  split; [reflexivity|]. split; [reflexivity|].
  apply (convertToBytes_unit_order 3 "KB" "GB" 1 3); try reflexivity; discriminate.
Defined.

(** ** The schema-wrapped cookie, every argument *)

(** The inner call [cookie.parse(headers)] of [parseSafe] and
    [parseWithDefault], on an object whose [parse] property holds the
    installed method. *)
Lemma cookie_parse_call_installed depth (cookie : gmap string Property) schema' s :
  cookie !! "parse" = Some (InstalledParse schema') ->
  cookie_parse_call depth cookie s =
    match zod_parse depth cookie schema' (HeaderString s) with
    | Some nested => Return (VPromise nested)
    | None => Throw RangeError
    end.
Proof. intros Hparse. unfold cookie_parse_call. by rewrite Hparse. Qed.

(** The wrapped [parse], for every cookie object, schema and argument,
    called with room for at least its own frame.  Without a cookie header,
    or with an empty one, it settles to the schema run on the empty
    mapping.  With a non-empty header it calls itself on the header
    string: when that call no longer fits on the stack it rejects with the
    engine's [RangeError], otherwise it settles to the schema run on the
    promise that the nested call returned.  So the outcome never depends
    on the cookie object, and no header text ever reaches the schema.  For
    a header that is present, a schema that passes promises on yields the
    [RangeError] of the innermost call, and a schema that reports an issue
    on every promise yields that issue from the second frame on. *)
Theorem zodCookie_parse_outcomes (depth : nat) (cookie : gmap string Property)
    (schema : ZodType) (cookieHeader : CookieHeader) :
  let header := ToString (cookie_header_of cookieHeader) in
  zodCookie_parse (S depth) cookie schema cookieHeader =
    Some (if truthy (cookie_header_of cookieHeader)
          then match zodCookie_parse depth cookie schema (HeaderString header) with
               | Some nested => awaited (parseAsync schema (VPromise nested))
               | None => Rejected RangeError
               end
          else awaited (parseAsync schema empty_mapping)) /\
  (forall cookie',
     zodCookie_parse depth cookie' schema cookieHeader
       = zodCookie_parse depth cookie schema cookieHeader) /\
  (truthy (cookie_header_of cookieHeader) = true ->
     zodCookie_parse 1 cookie schema cookieHeader = Some (Rejected RangeError) /\
     ((forall settled, schema (VPromise settled) = Valid (VPromise settled)) ->
        zodCookie_parse (S depth) cookie schema cookieHeader = Some (Rejected RangeError)) /\
     (forall error, (forall settled, schema (VPromise settled) = Invalid error) ->
        zodCookie_parse (S (S depth)) cookie schema cookieHeader = Some (Rejected error))).
Proof.
  intros header.
  pose proof (createZodCookie_parse_property cookie schema) as Hinstalled.
  unfold zodCookie_parse. split; [|split].
  - destruct (truthy (cookie_header_of cookieHeader)) eqn:Ht.
    + rewrite (zod_parse_header _ _ _ _ Ht).
      by apply zod_parse_installed_call, truthy_ToString.
    + by apply zod_parse_without_header.
  - intros cookie'. apply zod_parse_reads_parse.
    by rewrite Hinstalled, createZodCookie_parse_property.
  - intros Ht. pose proof (truthy_ToString _ Ht) as Hs.
    rewrite !(zod_parse_header _ _ _ _ Ht). split; [|split].
    + by rewrite (zod_parse_installed_call _ _ _ _ _ Hinstalled Hs).
    + intros Hvalid. by apply zod_parse_accepting.
    + intros error Hinvalid. by apply zod_parse_rejecting.
Qed.

Lemma zodCookie_parse_outcomes_witness :
  zodCookie_parse 7 (codec_cookie "session" VStr VStr) zod_unknown
    (HeaderHeaders [("accept", "*/*"); ("cookie", "session=abc")])
  = Some (Rejected RangeError).
Proof.
  destruct (zodCookie_parse_outcomes 6 (codec_cookie "session" VStr VStr) zod_unknown
              (HeaderHeaders [("accept", "*/*"); ("cookie", "session=abc")]))
    as (_ & _ & Hpresent).
  destruct (Hpresent eq_refl) as (_ & Haccepting & _).
  apply Haccepting. reflexivity.
Defined.

(** The wrapped [parseSafe] and [parseWithDefault] make the same inner
    call, [cookie.parse(headers)], which is the wrapped [parse].  Without
    a cookie header, or with an empty one, they settle to the safe result
    of the schema on the empty mapping, respectively to its data or the
    default.  With a non-empty header they reject with the engine's
    [RangeError] when the inner call no longer fits on the stack, and
    otherwise run the schema on the promise that the inner call returned.
    So, for a header that is present and room for the inner call: with a
    schema that reports an issue on every promise, [parseSafe] resolves to
    the failure tag around that issue and [parseWithDefault] resolves with
    the default; with a schema that passes promises on, [parseSafe]
    resolves to a success tag around the rejected promise of the inner
    call, and [parseWithDefault], whose result takes that promise over,
    rejects with its [RangeError]. *)
Theorem zodCookie_safe_outcomes (depth : nat) (cookie : gmap string Property)
    (schema : ZodType) (cookieHeader : CookieHeader) (defaultValue : JsValue) :
  let header := ToString (cookie_header_of cookieHeader) in
  let with_default value :=
    awaited (let! result := safeParseAsync schema value in
             Resolved (orDefault defaultValue result)) in
  zodCookie_parseSafe (S depth) cookie schema cookieHeader =
    Some (if truthy (cookie_header_of cookieHeader)
          then match zodCookie_parse depth cookie schema (HeaderString header) with
               | Some nested => safeParseAsync schema (VPromise nested)
               | None => Rejected RangeError
               end
          else safeParseAsync schema empty_mapping) /\
  zodCookie_parseWithDefault (S depth) cookie schema cookieHeader defaultValue =
    Some (if truthy (cookie_header_of cookieHeader)
          then match zodCookie_parse depth cookie schema (HeaderString header) with
               | Some nested => with_default (VPromise nested)
               | None => Rejected RangeError
               end
          else with_default empty_mapping) /\
  (truthy (cookie_header_of cookieHeader) = true ->
     (forall error, (forall settled, schema (VPromise settled) = Invalid error) ->
        zodCookie_parseSafe (S (S depth)) cookie schema cookieHeader
          = Some (Resolved (SafeError error)) /\
        zodCookie_parseWithDefault (S (S depth)) cookie schema cookieHeader defaultValue
          = Some (resolve defaultValue)) /\
     ((forall settled, schema (VPromise settled) = Valid (VPromise settled)) ->
        zodCookie_parseSafe (S (S depth)) cookie schema cookieHeader
          = Some (Resolved (SafeSuccess (VPromise (Rejected RangeError)))) /\
        zodCookie_parseWithDefault (S (S depth)) cookie schema cookieHeader defaultValue
          = Some (Rejected RangeError))).
Proof.
  intros header with_default.
  pose proof (createZodCookie_parse_property cookie schema) as Hinstalled.
  assert (forall bound,
            zodCookie_parseSafe (S bound) cookie schema cookieHeader =
              Some (if truthy (cookie_header_of cookieHeader)
                    then match zodCookie_parse bound cookie schema (HeaderString header) with
                         | Some nested => safeParseAsync schema (VPromise nested)
                         | None => Rejected RangeError
                         end
                    else safeParseAsync schema empty_mapping) /\
            zodCookie_parseWithDefault (S bound) cookie schema cookieHeader defaultValue =
              Some (if truthy (cookie_header_of cookieHeader)
                    then match zodCookie_parse bound cookie schema (HeaderString header) with
                         | Some nested => with_default (VPromise nested)
                         | None => Rejected RangeError
                         end
                    else with_default empty_mapping)) as Hstep.
  { intros bound. subst header.
    unfold zodCookie_parseSafe, zodCookie_parseWithDefault, zodCookie_parse.
    destruct cookieHeader as [s| |request|headers];
      cbn [zod_parseSafe zod_parseWithDefault cookie_header_of ToString]; [|done| |].
    - destruct (truthy (Some s)); [|done]. cbn [negb].
      rewrite (cookie_parse_call_installed _ _ _ _ Hinstalled).
      by destruct (zod_parse bound _ schema (HeaderString s)).
    - destruct (truthy _); [|done]. cbn [negb].
      rewrite (cookie_parse_call_installed _ _ _ _ Hinstalled).
      by destruct (zod_parse bound _ schema (HeaderString _)).
    - destruct (truthy _); [|done]. cbn [negb].
      rewrite (cookie_parse_call_installed _ _ _ _ Hinstalled).
      by destruct (zod_parse bound _ schema (HeaderString _)). }
  split; [apply Hstep|]. split; [apply Hstep|].
  intros Ht. pose proof (truthy_ToString _ Ht) as Hs.
  destruct (Hstep (S depth)) as [-> ->]. rewrite Ht. unfold zodCookie_parse. split.
  - intros error Hinvalid.
    destruct (zod_parse_returns depth (createZodCookie cookie schema) schema
                (HeaderString header)) as [nested ->].
    subst with_default. unfold safeParseAsync. by rewrite Hinvalid.
  - intros Hvalid.
    rewrite (zod_parse_accepting _ _ _ _ Hinstalled Hs Hvalid).
    subst with_default. unfold safeParseAsync. by rewrite Hvalid.
Qed.

Lemma zodCookie_safe_outcomes_witness :
  zodCookie_parseSafe 2 (codec_cookie "session" VStr VStr) name_schema (HeaderString "a=b")
    = Some (Resolved (SafeError (ZodError "Expected object"))) /\
  zodCookie_parseWithDefault 2 (codec_cookie "session" VStr VStr) name_schema
      (HeaderString "a=b") (VStr "default")
    = Some (Resolved (VStr "default")).
Proof.
  destruct (zodCookie_safe_outcomes 0 (codec_cookie "session" VStr VStr) name_schema
              (HeaderString "a=b") (VStr "default")) as (_ & _ & Hpresent).
  destruct (Hpresent eq_refl) as (Hrejecting & _).
  apply (Hrejecting (ZodError "Expected object")). reflexivity.
Defined.

(** Without a cookie header the three shapes of the wrapped cookie
    differ from the other parsers in one way: when the schema reports
    issues on the empty mapping, the throwing [parse] rejects with the
    schema's own error, not with the bad-request response; [parseSafe]
    resolves to the failure tag around that error and [parseWithDefault]
    resolves with the default: it is fulfilled with a default that is not
    itself a promise. *)
Theorem zodCookie_missing_header_issues (depth : nat) (cookie : gmap string Property)
    (schema : ZodType) (cookieHeader : CookieHeader) (defaultValue error : JsValue) :
  truthy (cookie_header_of cookieHeader) = false ->
  schema empty_mapping = Invalid error ->
  zodCookie_parse (S depth) cookie schema cookieHeader = Some (Rejected error) /\
  zodCookie_parseSafe (S depth) cookie schema cookieHeader
    = Some (Resolved (SafeError error)) /\
  zodCookie_parseWithDefault (S depth) cookie schema cookieHeader defaultValue
    = Some (resolve defaultValue) /\
  ((forall settled, defaultValue <> VPromise settled) ->
     zodCookie_parseWithDefault (S depth) cookie schema cookieHeader defaultValue
       = Some (Resolved defaultValue)).
Proof.
  intros Ht Hrun.
  assert (parseAsync schema empty_mapping = Rejected error) as Hparse
    by (unfold parseAsync; by rewrite Hrun).
  assert (safeParseAsync schema empty_mapping = Resolved (SafeError error)) as Hsafe
    by (unfold safeParseAsync; by rewrite Hrun).
  assert (zodCookie_parseWithDefault (S depth) cookie schema cookieHeader defaultValue
          = Some (resolve defaultValue)) as Hdefault.
  { unfold zodCookie_parseWithDefault.
    destruct cookieHeader as [s| |request|headers];
      cbn [zod_parseWithDefault cookie_header_of] in *;
      rewrite ?Ht; cbn [negb]; by rewrite Hsafe. }
  split; [|split; [|split]].
  - unfold zodCookie_parse. rewrite (zod_parse_without_header _ _ _ _ Ht). by rewrite Hparse.
  - unfold zodCookie_parseSafe.
    destruct cookieHeader as [s| |request|headers];
      cbn [zod_parseSafe cookie_header_of] in *;
      rewrite ?Ht; cbn [negb]; by rewrite Hsafe.
  - exact Hdefault.
  - intros Hvalue. by rewrite Hdefault, resolve_value.
Qed.

Lemma zodCookie_missing_header_issues_witness :
  zodCookie_parse 1 (codec_cookie "session" VStr VStr) name_schema HeaderNull
    = Some (Rejected (ZodError "Expected string")).
Proof.
  apply (zodCookie_missing_header_issues 0 (codec_cookie "session" VStr VStr) name_schema
           HeaderNull VNull (ZodError "Expected string")); reflexivity.
Defined.

(** ** [zx.base64Files] *)

Lemma zod_array_elements_throw schema before elem after exn :
  Forall (fun v => forall e, schema v <> Threw e) before ->
  schema elem = Threw exn ->
  zod_array_elements schema (before ++ elem :: after) = Throw exn.
Proof.
  intros Hbefore Helem. induction Hbefore as [|v before Hv _ IH].
  - cbn [app zod_array_elements]. by rewrite Helem.
  - cbn [app zod_array_elements]. rewrite IH.
    destruct (schema v) as [d|e0|e1]; [done..|]. by destruct (Hv e1).
Qed.

(** One undecodable string spoils the array.  When an element of the
    array is a string without a comma and no element before it makes the
    preprocessor throw, [zx.base64Files] throws the decoder's error for
    the array as a whole, whatever comes after and even if earlier
    elements had issues of their own: the safe shape rejects, the throwing
    shape answers with the bad request. *)
Theorem base64Files_first_throw (opts : FileOptions) (cfg : Config)
    (before after : list JsValue) (s : string) :
  Forall (fun v => forall e, zx_base64File opts v <> Threw e) before ->
  ~ has_char "," s ->
  let files := VArr (before ++ VStr s :: after) in
  zx_base64Files opts files = Threw InvalidCharacterError /\
  safeParseAsync (zx_base64Files opts) files = Rejected InvalidCharacterError /\
  parseOrThrow cfg (zx_base64Files opts) files = Rejected (BadRequest cfg).
Proof.
  intros Hbefore Hno files.
  assert (zx_base64File opts (VStr s) = Threw InvalidCharacterError) as Helem.
  { unfold zx_base64File, zod_preprocess, base64File_preprocess.
    by rewrite (split_none _ _ Hno). }
  assert (zx_base64Files opts files = Threw InvalidCharacterError) as Hrun.
  { unfold zx_base64Files, zod_array, files.
    by rewrite (zod_array_elements_throw _ _ _ _ _ Hbefore Helem). }
  unfold safeParseAsync, parseOrThrow, parseAsync. by rewrite Hrun.
Qed.

Lemma base64Files_first_throw_witness :
  safeParseAsync (zx_base64Files no_options)
    (VArr [VStr "data:text/plain;base64,aGVsbG8="; VStr "aGVsbG8="; VNum 5])
  = Rejected InvalidCharacterError.
Proof.
  apply (base64Files_first_throw no_options default_config
           [VStr "data:text/plain;base64,aGVsbG8="] [VNum 5] "aGVsbG8=").
  - constructor; [|constructor]. intros e. discriminate.
  - unfold has_char. cbn. intros H. repeat (destruct H as [H|H]; [discriminate H|]). exact H.
Defined.
